(** * clientLogger: rendering a request/response record as a log block

    A shallow embedding of [src/clientLogger.ts]: the formatter
    [showRequestResult], its helpers [_indent], [_showJSON] and
    [_queryString], and the adapter [logger].

    JavaScript strings are modelled as [string], numbers as integers, an
    object used as a mapping as an association list in property enumeration
    order, exceptions by the [completion] type, and the accumulator
    variable [out] of [showRequestResult] by explicit state passing.  The
    serializer [json.toJSON] is a parameter of the formatter; where a
    property depends on the JSON text itself, it is instantiated with
    [toJSON_model], and [JSON_parse] reads JSON text back. *)

From Stdlib Require Import String Ascii List ZArith Lia Bool DecimalString DecimalZ.
Import ListNotations.
Open Scope string_scope.

(** ** Strings *)

(** The line feed, written ['\n'] in the source. *)
Definition LF : ascii := "010"%char.
Definition nl : string := String LF "".

(** [str.split(sep)] for a one-character separator, the only way the source
    calls it.  The result is never empty: [''.split('\n')] is [['']]. *)
Fixpoint split (sep : ascii) (str : string) : list string :=
  match str with
  | "" => [""]
  | String c rest =>
      if Ascii.eqb c sep then "" :: split sep rest
      else match split sep rest with
           | piece :: pieces => String c piece :: pieces
           | [] => [String c ""]
           end
  end.

(** [array.join(sep)]. *)
Fixpoint join (sep : string) (a : list string) : string :=
  match a with
  | [] => ""
  | x :: rest =>
      match rest with
      | [] => x
      | _ :: _ => x ++ sep ++ join sep rest
      end
  end.

(** [_indent], lines 99-102. *)
Definition _indent (str : string) : string :=
  let indentStr := "  " in
  join (nl ++ indentStr) (split LF str).

(** Number of leading spaces of a line, and whether a string is free of
    line feeds; used to state properties of the rendered text. *)
Fixpoint leading_spaces (s : string) : nat :=
  match s with
  | String c rest => if Ascii.eqb c " " then S (leading_spaces rest) else 0
  | "" => 0
  end.

Fixpoint newline_free (s : string) : bool :=
  match s with
  | "" => true
  | String c rest => negb (Ascii.eqb c LF) && newline_free rest
  end.

(** The text lines of a rendered block, and how many of them begin with a
    given label. *)
Definition lines (s : string) : list string := split LF s.

Definition count_lines_with (label : string) (s : string) : nat :=
  List.length (filter (prefix label) (lines s)).

(** [String(n)] for an integer [n] that JavaScript prints in plain decimal
    notation: the digits, with a minus sign for a negative number.  This
    is the text of a number of absolute value below 10^21; JavaScript
    prints a larger one with an exponent and a fraction with its decimal
    point, and neither is represented here. *)
Definition Number_toString (n : Z) : string :=
  NilZero.string_of_int (Z.to_int n).

(** ** Values *)

(** Exceptions carry a name and a message. *)
Inductive exn : Type :=
| Exn (name message : string).

Definition SerializationError : exn :=
  Exn "SerializationError" "value cannot be converted to JSON".

(** The outcome of evaluating an expression: a value or a thrown
    exception. *)
Inductive completion (A : Type) : Type :=
| Normal (a : A)
| Throw (e : exn).
Arguments Normal {A} a.
Arguments Throw {A} e.

Set Warnings "-register-all".

(** Structured values.  [JSelfRef] stands for a reference back to an
    enclosing object or array, that is, a cycle in the object graph. *)
Inductive value : Type :=
| JNull
| JBool (b : bool)
| JNum (n : Z)
| JStr (s : string)
| JArr (items : list value)
| JObj (members : list (string * value))
| JSelfRef.

(** A field that may hold [undefined] is an [option]: [None] is
    [undefined].  [x != null] is false for [undefined] and for [null]. *)
Definition not_nullish (x : option value) : bool :=
  match x with
  | None => false
  | Some JNull => false
  | Some _ => true
  end.

(** The type [{ [key: string]: string } | null] of the argument of
    [_queryString], which the caller may also leave [undefined]. *)
Definition dict : Type := list (string * string).

Inductive nullable (A : Type) : Type :=
| Undefined
| Null
| Obj (o : A).
Arguments Undefined {A}.
Arguments Null {A}.
Arguments Obj {A} o.

(** [Object.keys(o)] and [o[key]]; reading a missing property gives
    [undefined], which string concatenation renders as ["undefined"]. *)
Definition Object_keys (o : dict) : list string := map fst o.

Fixpoint get_property (o : dict) (key : string) : option string :=
  match o with
  | [] => None
  | (k, v) :: rest => if String.eqb k key then Some v else get_property rest key
  end.

Definition ToString (x : option string) : string :=
  match x with
  | Some s => s
  | None => "undefined"
  end.

(** [_queryString], lines 108-122. *)
Definition _queryString (query : nullable dict) : string :=
  match query with
  | Undefined | Null => ""
  | Obj query =>
      let keys := Object_keys query in
      if Nat.eqb (List.length keys) 0 then ""
      else
        let pairs := map (fun key => key ++ "=" ++ ToString (get_property query key)) keys in
        "?" ++ join "&" pairs
  end.

(** The record type [RequestResult]. *)
Record RequestResult : Type := mkRequestResult {
  method : string;
  path : string;
  query : nullable dict;
  requestContent : option value;
  responseHeaders : value;
  responseContent : value;
  statusCode : Z;
  timeTaken : Z
}.

(** ** State passing *)

(** The state a call of [showRequestResult] works on: the record object
    it was passed and its local accumulator [out]. *)
Record store : Type := mkStore {
  requestResult : RequestResult;
  out : string
}.

Definition M (A : Type) : Type := store -> completion A * store.

Definition ret {A} (a : A) : M A := fun st => (Normal a, st).

Definition bind {A B} (m : M A) (k : A -> M B) : M B :=
  fun st =>
    match m st with
    | (Normal a, st') => k a st'
    | (Throw e, st') => (Throw e, st')
    end.

Definition lift {A} (c : completion A) : M A := fun st => (c, st).

Notation "x <- m ;; k" := (bind m (fun x => k))
  (at level 61, m at next level, right associativity).
Notation "m ;;; k" := (bind m (fun _ => k))
  (at level 61, right associativity).

Definition read_record : M RequestResult :=
  fun st => (Normal (requestResult st), st).

Definition set_out (s : string) : M unit :=
  fun st => (Normal tt, mkStore (requestResult st) s).

Definition get_out : M string := fun st => (Normal (out st), st).

(** The local function [log], lines 78-80. *)
Definition log (str : string) : M unit :=
  fun st => (Normal tt, mkStore (requestResult st) (out st ++ str)).

(** The first and the last segment of a log block. *)
Definition header_line (r : RequestResult) : string :=
  "Fauna " ++ method r ++ " /" ++ path r ++ _queryString (query r) ++ nl.

Definition status_line (r : RequestResult) : string :=
  "  Response (" ++ Number_toString (statusCode r)
    ++ "): Network latency " ++ Number_toString (timeTaken r) ++ "ms" ++ nl.

(** Whether the keys of a mapping are pairwise different, as the property
    names of an object are. *)
Fixpoint distinct (keys : list string) : bool :=
  match keys with
  | [] => true
  | k :: rest => negb (existsb (String.eqb k) rest) && distinct rest
  end.

Section Formatter.

(** [json.toJSON] of the module [./_json]; the second argument is the
    [pretty] flag. *)
Variable toJSON : value -> bool -> completion string.

(** [_showJSON], lines 104-106.  The serializer is taken at the type the
    call requires: it returns a string or throws.  A serializer that
    returned [undefined] would make [_indent] throw a TypeError at line
    101; that outcome is not represented. *)
Definition _showJSON (object : value) : completion string :=
  match toJSON object true with
  | Normal s => Normal (_indent s)
  | Throw e => Throw e
  end.

(** The body of [showRequestResult], lines 65-96. *)
Definition showRequestResult_body : M string :=
  r <- read_record ;;
  set_out "" ;;;
  log ("Fauna " ++ method r ++ " /" ++ path r ++ _queryString (query r) ++ nl) ;;;
  (if not_nullish (requestContent r) then
     match requestContent r with
     | Some content =>
         js <- lift (_showJSON content) ;;
         log ("  Request JSON: " ++ js ++ nl)
     | None => ret tt
     end
   else ret tt) ;;;
  (js <- lift (_showJSON (responseHeaders r)) ;;
   log ("  Response headers: " ++ js ++ nl)) ;;;
  (js <- lift (_showJSON (responseContent r)) ;;
   log ("  Response JSON: " ++ js ++ nl)) ;;;
  log ("  Response (" ++ Number_toString (statusCode r)
         ++ "): Network latency " ++ Number_toString (timeTaken r) ++ "ms" ++ nl) ;;;
  get_out.

(** [showRequestResult], lines 64-97: run the body on the record with a
    fresh accumulator. *)
Definition showRequestResult (requestResult : RequestResult) : completion string :=
  fst (showRequestResult_body (mkStore requestResult "")).

(** What line 83-85 appends to [out]: nothing when [requestContent] is
    [null] or [undefined]. *)
Definition request_segment (r : RequestResult) : completion string :=
  if not_nullish (requestContent r) then
    match requestContent r with
    | Some content =>
        match _showJSON content with
        | Normal js => Normal ("  Request JSON: " ++ js ++ nl)
        | Throw e => Throw e
        end
    | None => Normal ""
    end
  else Normal "".

(** ** The adapter *)

(** A callback is a function of the logged string that may change the
    world [W] around it (a console, a file), and returns a value
    ([None] is [undefined]) or throws. *)
Definition loggerCallback (W : Type) : Type :=
  string -> W -> completion (option value) * W.

(** [logger], lines 52-56. *)
Definition logger {W : Type} (loggerFunction : loggerCallback W)
  : RequestResult -> W -> completion (option value) * W :=
  fun requestResult w =>
    match showRequestResult requestResult with
    | Normal rendered => loggerFunction rendered w
    | Throw e => (Throw e, w)
    end.

End Formatter.

(** A callback together with a record of the strings it was called with. *)
Definition recording {W : Type} (f : loggerCallback W) : loggerCallback (W * list string) :=
  fun s '(w, calls) =>
    let '(c, w') := f s w in (c, (w', (calls ++ [s])%list)).

(** ** The serializer *)

Definition quote : ascii := "034"%char.
Definition backslash : ascii := "092"%char.

Definition hex_digit (n : N) : ascii :=
  match n with
  | 0 => "0" | 1 => "1" | 2 => "2" | 3 => "3" | 4 => "4" | 5 => "5"
  | 6 => "6" | 7 => "7" | 8 => "8" | 9 => "9" | 10 => "a" | 11 => "b"
  | 12 => "c" | 13 => "d" | 14 => "e" | _ => "f"
  end%N%char.

(** How a character appears inside a JSON string: the quote, the backslash
    and the control characters are escaped, so that a JSON text has no line
    feed inside a string. *)
Definition escape_char (c : ascii) : string :=
  let n := N_of_ascii c in
  if Ascii.eqb c quote then String backslash (String quote "")
  else if Ascii.eqb c backslash then String backslash (String backslash "")
  else if N.eqb n 8 then String backslash "b"
  else if N.eqb n 9 then String backslash "t"
  else if N.eqb n 10 then String backslash "n"
  else if N.eqb n 12 then String backslash "f"
  else if N.eqb n 13 then String backslash "r"
  else if N.ltb n 32 then
    String backslash
      (String "u" (String "0" (String "0"
         (String (hex_digit (n / 16)) (String (hex_digit (n mod 16)) "")))))
  else String c "".

Fixpoint escape (s : string) : string :=
  match s with
  | "" => ""
  | String c rest => escape_char c ++ escape rest
  end.

Definition quote_string (s : string) : string :=
  String quote (escape s ++ String quote "").

(** The indentation in front of a line at nesting depth [k]. *)
Fixpoint gap (k : nat) : string :=
  match k with
  | O => ""
  | S k' => "  " ++ gap k'
  end.

(** The human-readable JSON text of a value whose lines start at nesting
    depth [k]: nested structures on several lines, two spaces per level. *)
Fixpoint stringify (k : nat) (v : value) : string :=
  match v with
  | JNull => "null"
  | JBool true => "true"
  | JBool false => "false"
  | JNum n => Number_toString n
  | JStr s => quote_string s
  | JArr [] => "[]"
  | JArr items =>
      "[" ++ nl ++ gap (S k)
          ++ join ("," ++ nl ++ gap (S k)) (map (stringify (S k)) items)
          ++ nl ++ gap k ++ "]"
  | JObj [] => "{}"
  | JObj members =>
      "{" ++ nl ++ gap (S k)
          ++ join ("," ++ nl ++ gap (S k))
               (map (fun m => match m with
                              | (key, x) => quote_string key ++ ": " ++ stringify (S k) x
                              end) members)
          ++ nl ++ gap k ++ "}"
  | JSelfRef => ""
  end.

(** A value is serializable when no part of it refers back to an
    enclosing one. *)
Fixpoint serializable (v : value) : bool :=
  match v with
  | JSelfRef => false
  | JArr items => forallb serializable items
  | JObj members => forallb (fun m => serializable (snd m)) members
  | _ => true
  end.

(** Modelled from the spec: [json.toJSON] of the module [./_json], which is
    imported by [clientLogger.ts] but is not among the sources.  It
    serializes a value to the human-readable JSON text above and fails with
    a SerializationError on a value that has a cycle.  Only the pretty form
    is described, and it is the only one the logger asks for. *)
Definition toJSON_model (object : value) (pretty : bool) : completion string :=
  if serializable object then Normal (stringify 0 object)
  else Throw SerializationError.

(** ** Reading JSON text back *)

Definition is_ws (c : ascii) : bool :=
  Ascii.eqb c " " || Ascii.eqb c LF || Ascii.eqb c "013" || Ascii.eqb c "009".

Fixpoint skip_ws (s : string) : string :=
  match s with
  | String c rest => if is_ws c then skip_ws rest else s
  | "" => ""
  end.

Definition is_digit (c : ascii) : bool :=
  let n := N_of_ascii c in (N.leb 48 n && N.leb n 57)%N.

Fixpoint span_digits (s : string) : string * string :=
  match s with
  | String c rest =>
      if is_digit c then
        let (digits, rest') := span_digits rest in (String c digits, rest')
      else ("", s)
  | "" => ("", "")
  end.

(** Whether a number may end in front of [rest]: a fraction or an exponent
    would continue it, and they are outside the integers modelled here. *)
Definition number_ends (rest : string) : bool :=
  match rest with
  | "" => true
  | String c _ =>
      negb (is_digit c || Ascii.eqb c "." || Ascii.eqb c "e" || Ascii.eqb c "E")
  end.

(** Digits of a JSON number have no leading zero. *)
Definition no_leading_zero (digits : string) : bool :=
  match digits with
  | String "0" (String _ _) => false
  | _ => true
  end.

Definition parse_digits (s : string) : option (Decimal.uint * string) :=
  let (digits, rest) := span_digits s in
  if no_leading_zero digits && number_ends rest then
    match NilZero.uint_of_string digits with
    | Some d => Some (d, rest)
    | None => None
    end
  else None.

Definition parse_number (s : string) : option (Z * string) :=
  match s with
  | "" => None
  | String c s' =>
      if Ascii.eqb c "-" then
        match parse_digits s' with
        | Some (d, rest) => Some (Z.of_int (Decimal.Neg d), rest)
        | None => None
        end
      else
        match parse_digits s with
        | Some (d, rest) => Some (Z.of_int (Decimal.Pos d), rest)
        | None => None
        end
  end.

Definition hex_value (c : ascii) : option N :=
  let n := N_of_ascii c in
  if (N.leb 48 n && N.leb n 57)%N then Some (n - 48)%N
  else if (N.leb 97 n && N.leb n 102)%N then Some (n - 87)%N
  else if (N.leb 65 n && N.leb n 70)%N then Some (n - 55)%N
  else None.

(** The bytes (UTF-8) of the character a [\uXXXX] escape names; a
    surrogate half has none. *)
Definition utf8 (n : N) : option string :=
  (if n <? 128 then Some (String (ascii_of_N n) "")
   else if n <? 2048 then
     Some (String (ascii_of_N (192 + n / 64)) (String (ascii_of_N (128 + n mod 64)) ""))
   else if (55296 <=? n) && (n <=? 57343) then None
   else
     Some (String (ascii_of_N (224 + n / 4096))
             (String (ascii_of_N (128 + (n / 64) mod 64))
                (String (ascii_of_N (128 + n mod 64)) ""))))%N.

Definition unicode_escape (h1 h2 h3 h4 : ascii) : option string :=
  match hex_value h1, hex_value h2, hex_value h3, hex_value h4 with
  | Some a, Some b, Some c, Some d => utf8 (4096 * a + 256 * b + 16 * c + d)%N
  | _, _, _, _ => None
  end.

Definition simple_escape (e : ascii) : option ascii :=
  if Ascii.eqb e quote then Some quote
  else if Ascii.eqb e backslash then Some backslash
  else if Ascii.eqb e "/" then Some "/"%char
  else if Ascii.eqb e "b" then Some "008"%char
  else if Ascii.eqb e "f" then Some "012"%char
  else if Ascii.eqb e "n" then Some LF
  else if Ascii.eqb e "r" then Some "013"%char
  else if Ascii.eqb e "t" then Some "009"%char
  else None.

Definition prepend (p : string) (r : option (string * string)) : option (string * string) :=
  match r with
  | Some (s, rest) => Some (p ++ s, rest)
  | None => None
  end.

(** The characters of a string after its opening quote, up to the closing
    one. *)
Fixpoint parse_chars (s : string) : option (string * string) :=
  match s with
  | "" => None
  | String c r =>
      if Ascii.eqb c quote then Some ("", r)
      else if Ascii.eqb c backslash then
        match r with
        | "" => None
        | String e r1 =>
            if Ascii.eqb e "u" then
              match r1 with
              | String h1 (String h2 (String h3 (String h4 r2))) =>
                  match unicode_escape h1 h2 h3 h4 with
                  | Some bytes => prepend bytes (parse_chars r2)
                  | None => None
                  end
              | _ => None
              end
            else
              match simple_escape e with
              | Some ch => prepend (String ch "") (parse_chars r1)
              | None => None
              end
        end
      else if (N_of_ascii c <? 32)%N then None
      else prepend (String c "") (parse_chars r)
  end.

Section Sequences.

Context {A : Type}.
Variable parse_item : string -> option (A * string).

(** Items separated by commas, up to the closing bracket; at most [n]
    of them. *)
Fixpoint parse_elements (n : nat) (s : string) : option (list A * string) :=
  match n with
  | O => None
  | S n' =>
      match parse_item s with
      | None => None
      | Some (x, r) =>
          match skip_ws r with
          | String "," r' =>
              match parse_elements n' r' with
              | Some (xs, r'') => Some (x :: xs, r'')
              | None => None
              end
          | String "]" r' => Some ([x], r')
          | _ => None
          end
      end
  end.

(** Members [key: item] separated by commas, up to the closing brace. *)
Fixpoint parse_members (n : nat) (s : string) : option (list (string * A) * string) :=
  match n with
  | O => None
  | S n' =>
      match skip_ws s with
      | String c r0 =>
          if Ascii.eqb c quote then
            match parse_chars r0 with
            | None => None
            | Some (key, r1) =>
                match skip_ws r1 with
                | String ":" r2 =>
                    match parse_item r2 with
                    | None => None
                    | Some (x, r3) =>
                        match skip_ws r3 with
                        | String "," r4 =>
                            match parse_members n' r4 with
                            | Some (ms, r5) => Some ((key, x) :: ms, r5)
                            | None => None
                            end
                        | String "}" r4 => Some ([(key, x)], r4)
                        | _ => None
                        end
                    end
                | _ => None
                end
            end
          else None
      | "" => None
      end
  end.

End Sequences.

(** [s] without the prefix [p], if it begins with it. *)
Fixpoint strip_prefix (p s : string) : option string :=
  match p with
  | "" => Some s
  | String a p' =>
      match s with
      | String b s' => if Ascii.eqb a b then strip_prefix p' s' else None
      | "" => None
      end
  end.

Definition parse_literal (word : string) (v : value) (s : string)
  : option (value * string) :=
  match strip_prefix word s with
  | Some r => Some (v, r)
  | None => None
  end.

(** One JSON value at the front of [s], after any white space, and the
    text that follows it.  [fuel] bounds the nesting depth and the number
    of items of a sequence. *)
Fixpoint parse_value (fuel : nat) (s : string) : option (value * string) :=
  match fuel with
  | O => None
  | S f =>
      match skip_ws s with
      | "" => None
      | String c r =>
          if Ascii.eqb c "n" then parse_literal "ull" JNull r
          else if Ascii.eqb c "t" then parse_literal "rue" (JBool true) r
          else if Ascii.eqb c "f" then parse_literal "alse" (JBool false) r
          else if Ascii.eqb c quote then
            match parse_chars r with
            | Some (str, r') => Some (JStr str, r')
            | None => None
            end
          else if Ascii.eqb c "[" then
            match skip_ws r with
            | "" => None
            | String c' r' =>
                if Ascii.eqb c' "]" then Some (JArr [], r')
                else
                  match parse_elements (parse_value f) f r with
                  | Some (items, r'') => Some (JArr items, r'')
                  | None => None
                  end
            end
          else if Ascii.eqb c "{" then
            match skip_ws r with
            | "" => None
            | String c' r' =>
                if Ascii.eqb c' "}" then Some (JObj [], r')
                else
                  match parse_members (parse_value f) f r with
                  | Some (members, r'') => Some (JObj members, r'')
                  | None => None
                  end
            end
          else
            match parse_number (String c r) with
            | Some (n, r') => Some (JNum n, r')
            | None => None
            end
      end
  end.

(** [JSON.parse]: the whole text is one value, with white space around
    it. *)
Definition JSON_parse (text : string) : option value :=
  match parse_value (S (String.length text)) text with
  | Some (v, rest) =>
      match skip_ws rest with
      | "" => Some v
      | _ => None
      end
  | None => None
  end.

(** The number of nodes of a value. *)
Fixpoint size (v : value) : nat :=
  match v with
  | JArr items => S (list_sum (map size items))
  | JObj members => S (list_sum (map (fun m => size (snd m)) members))
  | _ => 1
  end.

(** The digits of an integer are not empty and have no leading zero. *)
Definition canonical (d : Decimal.uint) : Prop :=
  d <> Decimal.Nil /\ no_leading_zero (NilZero.string_of_uint d) = true.

(** The characters a number can begin with. *)
Definition opens_number (c : ascii) : bool := is_digit c || Ascii.eqb c "-".

(** The values that [parse_value] reads back with fuel [f], at any depth
    and in front of any text that does not continue a number. *)
Definition read_back (f : nat) (v : value) : Prop :=
  forall k rest,
    number_ends rest = true ->
    parse_value f (stringify k v ++ rest) = Some (v, rest).

(** Whether no line of [text] after the first begins with [label]. *)
Definition interior_lines_avoid (label text : string) : bool :=
  forallb (fun l => negb (prefix label l)) (tl (lines text)).

(** Whether every line feed of [text] is followed by a space or a closing
    bracket, as the line feeds of a JSON text are. *)
Definition opens_line (c : ascii) : bool :=
  Ascii.eqb c " " || Ascii.eqb c "]" || Ascii.eqb c "}".

Fixpoint line_feeds_in_layout (text : string) : bool :=
  match text with
  | "" => true
  | String c rest =>
      (if Ascii.eqb c LF then
         match rest with
         | String d _ => opens_line d
         | "" => false
         end
       else true) && line_feeds_in_layout rest
  end.

(** Whether every line feed of [text] is followed by two spaces and then
    a space or a closing bracket, as in an indented JSON text. *)
Fixpoint line_feeds_indented (text : string) : bool :=
  match text with
  | "" => true
  | String c rest =>
      (if Ascii.eqb c LF then
         match rest with
         | String a (String b (String d _)) =>
             Ascii.eqb a " " && Ascii.eqb b " " && opens_line d
         | _ => false
         end
       else true) && line_feeds_indented rest
  end.

(** The text after the first occurrence of [needle] in [s], and the text
    before it. *)
Fixpoint after_first (needle s : string) : option string :=
  match strip_prefix needle s with
  | Some rest => Some rest
  | None =>
      match s with
      | "" => None
      | String _ s' => after_first needle s'
      end
  end.

Fixpoint before_first (needle s : string) : option string :=
  match strip_prefix needle s with
  | Some _ => Some ""
  | None =>
      match s with
      | "" => None
      | String c s' =>
          match before_first needle s' with
          | Some b => Some (String c b)
          | None => None
          end
      end
  end.

(** The payload of the request segment of a block, found by its label:
    what stands between the first line that is the request label and the
    next line that is the response-headers label. *)
Definition request_payload (text : string) : option string :=
  match after_first (nl ++ "  Request JSON: ") text with
  | Some rest => before_first (nl ++ "  Response headers: ") rest
  | None => None
  end.

(** ** The record of the spec's scenario *)

Definition scenario : RequestResult :=
  mkRequestResult "POST" "" Null
    (Some (JObj [("data", JObj [("name", JStr "Fido")])]))
    (JObj [("content-type", JStr "application/json")])
    (JObj [("resource", JObj [("ref", JStr "classes/dogs/1")])])
    201 13.

Definition scenario_text : string :=
  Eval vm_compute in
    match showRequestResult toJSON_model scenario with
    | Normal text => text
    | Throw _ => ""
    end.

(** A record whose query value holds a line feed, and one whose request
    content refers to itself. *)
Definition injected : RequestResult :=
  mkRequestResult "GET" "classes"
    (Obj [("scope", nl ++ "  Request JSON: {}")])
    None (JObj []) JNull 200 5.

Definition cyclic : RequestResult :=
  mkRequestResult "POST" "" Null
    (Some (JObj [("self", JSelfRef)])) (JObj []) JNull 200 5.

(** A record whose query value carries a request segment and a
    response-headers label of its own, in front of the real ones. *)
Definition injected_block : RequestResult :=
  mkRequestResult "GET" "classes"
    (Obj [("scope", nl ++ "  Request JSON: 1" ++ nl ++ "  Response headers: {}")])
    (Some (JObj [("a", JNum 5)])) (JObj []) JNull 200 5.

(** A record whose response content refers to itself. *)
Definition cyclic_response : RequestResult :=
  mkRequestResult "POST" "" Null
    (Some (JObj [("name", JStr "Fido")])) (JObj [])
    (JArr [JSelfRef]) 200 5.

(** A callback that returns the number 7 and one that returns nothing. *)
Definition returns_seven : loggerCallback unit :=
  fun _ w => (Normal (Some (JNum 7)), w).

Definition returns_nothing : loggerCallback unit :=
  fun _ w => (Normal None, w).

(** ** Further notions used to state properties *)

(** Whether the character [c] does not occur in [s]. *)
Fixpoint char_free (c : ascii) (s : string) : bool :=
  match s with
  | "" => true
  | String x rest => negb (Ascii.eqb x c) && char_free c rest
  end.

(** Taking the indentation of [_indent] off again: the first two
    characters of every line but the first are dropped. *)
Definition drop_indent (line : string) : string :=
  match line with
  | String _ (String _ rest) => rest
  | _ => line
  end.

Definition unindent (text : string) : string :=
  match lines text with
  | [] => ""
  | first :: rest => join nl (first :: map drop_indent rest)
  end.

(** The record [r] with another request content. *)
Definition with_requestContent (r : RequestResult) (content : option value)
  : RequestResult :=
  mkRequestResult (method r) (path r) (query r) content
    (responseHeaders r) (responseContent r) (statusCode r) (timeTaken r).

(** A serializer that has no compact form and rejects [null]. *)
Definition toJSON_pretty_only (object : value) (pretty : bool) : completion string :=
  if pretty then
    match object with
    | JNull => Throw SerializationError
    | _ => toJSON_model object true
    end
  else Throw SerializationError.

(** A record whose request content is [null]. *)
Definition ping : RequestResult :=
  mkRequestResult "GET" "ping" (Obj [("scope", "node")])
    (Some JNull) (JObj []) (JObj [("resource", JStr "Scope node is OK")]) 200 3.

(** * Properties *)

(** ** Strings, [split] and [join] *)

Lemma append_assoc (a b c : string) : (a ++ b) ++ c = a ++ b ++ c.
Proof. induction a as [|x a IH]; simpl; [reflexivity | now rewrite IH]. Qed.

Lemma append_nil_r (a : string) : a ++ "" = a.
Proof. induction a as [|x a IH]; simpl; [reflexivity | now rewrite IH]. Qed.

Lemma split_nonempty (sep : ascii) (s : string) : split sep s <> [].
Proof.
  destruct s as [|c s]; simpl; [discriminate|].
  destruct (Ascii.eqb c sep); [discriminate|].
  destruct (split sep s); discriminate.
Qed.

Lemma split_cons_other (sep c : ascii) (s : string) :
  Ascii.eqb c sep = false ->
  exists piece pieces,
    split sep s = piece :: pieces /\ split sep (String c s) = String c piece :: pieces.
Proof.
  intros Hc. simpl. rewrite Hc.
  destruct (split sep s) as [|piece pieces] eqn:E.
  - now destruct (split_nonempty sep s).
  - now exists piece, pieces.
Qed.

Lemma split_app (sep : ascii) (a b : string) :
  split sep (a ++ String sep b) = (split sep a ++ split sep b)%list.
Proof.
  induction a as [|c a IH]; simpl.
  - now rewrite Ascii.eqb_refl.
  - destruct (Ascii.eqb c sep); [now rewrite IH|].
    rewrite IH.
    destruct (split sep a) as [|piece pieces] eqn:E; [|reflexivity].
    now destruct (split_nonempty sep a).
Qed.

Lemma split_newline_free (s : string) :
  newline_free s = true -> split LF s = [s].
Proof.
  induction s as [|c s IH]; simpl; [reflexivity|].
  intros H. apply andb_true_iff in H. destruct H as [Hc Hs].
  apply negb_true_iff in Hc. rewrite Hc, (IH Hs). reflexivity.
Qed.

Lemma split_pieces_newline_free (s : string) :
  Forall (fun piece => newline_free piece = true) (split LF s).
Proof.
  induction s as [|c s IH]; simpl; [now repeat constructor|].
  destruct (Ascii.eqb c LF) eqn:Hc; [now constructor|].
  destruct (split LF s) as [|piece pieces]; [repeat constructor; simpl; now rewrite Hc|].
  inversion IH; subst. constructor; [simpl; now rewrite Hc | assumption].
Qed.

Lemma newline_free_app (a b : string) :
  newline_free (a ++ b) = newline_free a && newline_free b.
Proof.
  induction a as [|c a IH]; simpl; [reflexivity|].
  now rewrite IH, andb_assoc.
Qed.

Lemma join_cons (sep x y : string) (rest : list string) :
  join sep (x :: y :: rest) = x ++ sep ++ join sep (y :: rest).
Proof. reflexivity. Qed.

Lemma join_app (sep : string) (l1 l2 : list string) :
  l1 <> [] -> l2 <> [] ->
  join sep (l1 ++ l2) = join sep l1 ++ sep ++ join sep l2.
Proof.
  induction l1 as [|x l1 IH]; intros H1 H2; [congruence|].
  destruct l1 as [|y l1].
  - destruct l2 as [|z l2]; [congruence|]. reflexivity.
  - change ((x :: y :: l1) ++ l2)%list with (x :: (y :: l1) ++ l2)%list.
    simpl app. rewrite !join_cons.
    change (y :: (l1 ++ l2))%list with ((y :: l1) ++ l2)%list.
    rewrite IH by (congruence || assumption).
    now rewrite !append_assoc.
Qed.

Lemma join_split (s : string) : join nl (split LF s) = s.
Proof.
  induction s as [|c s IH]; simpl; [reflexivity|].
  destruct (Ascii.eqb c LF) eqn:Hc.
  - apply Ascii.eqb_eq in Hc. subst c.
    destruct (split LF s) as [|piece pieces] eqn:E;
      [now destruct (split_nonempty LF s)|].
    rewrite <- IH. reflexivity.
  - destruct (split LF s) as [|piece pieces] eqn:E;
      [now destruct (split_nonempty LF s)|].
    rewrite <- IH. destruct pieces; reflexivity.
Qed.

(** Splitting what [join] built from line-feed-free pieces, with the
    indentation added in front of every piece but the first. *)
Lemma split_join_indent (p : string) (piece : string) (pieces : list string) :
  newline_free p = true ->
  Forall (fun x => newline_free x = true) (piece :: pieces) ->
  split LF (p ++ join (nl ++ "  ") (piece :: pieces))
  = (p ++ piece) :: map (append "  ") pieces.
Proof.
  revert p piece. induction pieces as [|y pieces IH]; intros p piece Hp Hall.
  - inversion Hall; subst. simpl join.
    apply split_newline_free. rewrite newline_free_app. now rewrite Hp.
  - inversion Hall as [|? ? Hx Hrest]; subst.
    rewrite join_cons.
    replace (p ++ piece ++ (nl ++ "  ") ++ join (nl ++ "  ") (y :: pieces))
      with ((p ++ piece) ++ String LF ("  " ++ join (nl ++ "  ") (y :: pieces)))
      by (now rewrite append_assoc).
    rewrite split_app.
    rewrite split_newline_free by (rewrite newline_free_app; now rewrite Hp).
    rewrite (IH "  " y eq_refl Hrest). reflexivity.
Qed.

(** ** [_indent] *)

Lemma indent_lines (s : string) :
  exists first rest,
    lines s = first :: rest /\
    lines (_indent s) = first :: map (append "  ") rest.
Proof.
  unfold lines, _indent. cbv zeta.
  pose proof (split_pieces_newline_free s) as Hall.
  destruct (split LF s) as [|first rest] eqn:E;
    [now destruct (split_nonempty LF s)|].
  exists first, rest. split; [reflexivity|].
  exact (split_join_indent "" first rest eq_refl Hall).
Qed.

(** C5: [_indent] leaves the first line of its argument unchanged and puts
    exactly two more spaces in front of every other line: line by line,
    the result is the argument's line with ["  "] prepended, so that it has
    two more leading spaces; no line is added or removed.  This holds for
    every string, in particular every string the serializer produces. *)
Theorem indent_adds_two_spaces_after_every_newline (s : string) :
  exists first rest rest',
    lines s = first :: rest /\
    lines (_indent s) = first :: rest' /\
    Forall2 (fun l l' => l' = "  " ++ l /\
                         leading_spaces l' = 2 + leading_spaces l) rest rest' /\
    String.length (_indent s) = String.length s + 2 * List.length rest.
Proof.
  destruct (indent_lines s) as (first & rest & Hs & Hi).
  exists first, rest, (map (append "  ") rest).
  repeat split; try assumption.
  - clear. induction rest as [|l rest IH]; constructor; auto.
  - unfold lines in Hs. unfold _indent. cbv zeta. rewrite Hs.
    rewrite <- (join_split s). rewrite Hs.
    clear. revert first. induction rest as [|y rest IH]; intros first.
    + simpl. lia.
    + rewrite !join_cons.
      assert (Hlen : forall a b, String.length (a ++ b) = String.length a + String.length b).
      { clear. induction a; simpl; intros; [reflexivity | now rewrite IHa]. }
      rewrite !Hlen, IH. simpl List.length. simpl String.length. lia.
Qed.

(** C10: [_indent] is the identity on strings without a line feed, and it
    distributes over concatenation at a line feed. *)
Theorem indent_identity_and_distributes :
  (forall s, newline_free s = true -> _indent s = s) /\
  (forall a b, _indent (a ++ nl ++ b) = _indent a ++ nl ++ "  " ++ _indent b).
Proof.
  split.
  - intros s H. unfold _indent. cbv zeta. now rewrite (split_newline_free s H).
  - intros a b. unfold _indent. cbv zeta.
    change (nl ++ b) with (String LF b). rewrite split_app.
    rewrite join_app by apply split_nonempty.
    now rewrite append_assoc.
Qed.

(** ** [_queryString] *)

Lemma pairs_of_distinct_keys (o : dict) :
  distinct (Object_keys o) = true ->
  map (fun key => key ++ "=" ++ ToString (get_property o key)) (Object_keys o)
  = map (fun kv => fst kv ++ "=" ++ snd kv) o.
Proof.
  induction o as [|[k v] o IH]; intros Hd; [reflexivity|].
  simpl in Hd. apply andb_true_iff in Hd. destruct Hd as [Hk Hd].
  apply negb_true_iff in Hk.
  unfold Object_keys in *. simpl map.
  f_equal.
  - simpl. now rewrite String.eqb_refl.
  - etransitivity; [|exact (IH Hd)]. apply map_ext_in. intros key Hin.
    cbn [get_property].
    destruct (String.eqb k key) eqn:E; [|reflexivity]. exfalso.
    enough (existsb (String.eqb k) (map fst o) = true) by congruence.
    apply existsb_exists. now exists key.
Qed.

(** C2: the query-string suffix is empty for [null], [undefined] and a
    mapping without keys; for any other mapping it is ['?'] followed by one
    [key=value] pair per entry, in the mapping's enumeration order, joined
    by ['&'], keys and values copied as they are. *)
Theorem queryString_suffix (query : nullable dict) :
  match query with
  | Undefined | Null | Obj [] => _queryString query = ""
  | Obj (entry :: entries) =>
      distinct (Object_keys (entry :: entries)) = true ->
      _queryString query
      = "?" ++ join "&" (map (fun kv => fst kv ++ "=" ++ snd kv) (entry :: entries))
  end.
Proof.
  destruct query as [| |[|entry entries]]; try reflexivity.
  intros Hd. unfold _queryString. cbv zeta.
  rewrite (pairs_of_distinct_keys _ Hd). reflexivity.
Qed.

Lemma queryString_suffix_witness :
  _queryString (Obj [("size", "10"); ("ts", "123")]) = "?size=10&ts=123".
Proof.
  exact (queryString_suffix (Obj [("size", "10"); ("ts", "123")]) eq_refl).
Defined.

(** ** The formatter *)

Section FormatterProperties.

Variable toJSON : value -> bool -> completion string.

Local Abbreviation body := (showRequestResult_body toJSON).
Local Abbreviation render := (showRequestResult toJSON).

(** The outcome of the body, read off its text: the first failing
    serialization is thrown, otherwise the segments are concatenated in
    the order of the [log] calls. *)
Lemma body_outcome (st : store) :
  let r := requestResult st in
  fst (body st) =
  match request_segment toJSON r with
  | Throw e => Throw e
  | Normal rq =>
      match _showJSON toJSON (responseHeaders r) with
      | Throw e => Throw e
      | Normal hs =>
          match _showJSON toJSON (responseContent r) with
          | Throw e => Throw e
          | Normal cs =>
              Normal (header_line r ++ rq
                        ++ ("  Response headers: " ++ hs ++ nl)
                        ++ ("  Response JSON: " ++ cs ++ nl)
                        ++ status_line r)
          end
      end
  end.
Proof.
  destruct st as [r o]. cbv zeta. cbn [requestResult].
  unfold showRequestResult_body, request_segment, bind, read_record, set_out,
    log, lift, get_out, ret. cbn [fst snd requestResult out].
  destruct (not_nullish (requestContent r));
    [destruct (requestContent r) as [content|];
     [destruct (_showJSON toJSON content) as [js|e]; [|reflexivity]|]|];
    (destruct (_showJSON toJSON (responseHeaders r)) as [hs|e]; [|reflexivity]);
    (destruct (_showJSON toJSON (responseContent r)) as [cs|e]; [|reflexivity]);
    cbn [fst snd requestResult out];
    unfold header_line, status_line; rewrite !append_assoc; reflexivity.
Qed.

Lemma render_outcome (r : RequestResult) :
  render r = fst (body (mkStore r "")).
Proof. reflexivity. Qed.

(** The decomposition of a rendered block into its segments. *)
Lemma render_segments (r : RequestResult) (text : string) :
  render r = Normal text ->
  exists rq hs cs,
    request_segment toJSON r = Normal rq /\
    toJSON (responseHeaders r) true = Normal hs /\
    toJSON (responseContent r) true = Normal cs /\
    text = header_line r ++ rq
             ++ ("  Response headers: " ++ _indent hs ++ nl)
             ++ ("  Response JSON: " ++ _indent cs ++ nl)
             ++ status_line r.
Proof.
  rewrite render_outcome, body_outcome. cbv zeta. simpl requestResult.
  destruct (request_segment toJSON r) as [rq|e]; [|discriminate].
  unfold _showJSON.
  destruct (toJSON (responseHeaders r) true) as [hs|e]; [|discriminate].
  destruct (toJSON (responseContent r) true) as [cs|e]; [|discriminate].
  intros [= <-]. now exists rq, hs, cs.
Qed.

(** C1: the rendered block begins with the header line: ['Fauna'], a
    space, the method, a space, a slash, the path, the query-string
    suffix and a line feed. *)
Theorem render_begins_with_header (r : RequestResult) (text : string) :
  render r = Normal text ->
  exists rest,
    text = "Fauna" ++ " " ++ method r ++ " " ++ "/" ++ path r
             ++ _queryString (query r) ++ nl ++ rest.
Proof.
  intros H. destruct (render_segments r text H) as (rq & hs & cs & _ & _ & _ & ->).
  eexists. unfold header_line. rewrite !append_assoc. reflexivity.
Qed.

(** C4: after the header and the request segment, if any, every rendered
    block has the response-headers segment, the response-JSON segment and
    the status line, in this order, each indented by two spaces and ended
    by a line feed; the block ends with the status line. *)
Theorem render_response_segments (r : RequestResult) (text : string) :
  render r = Normal text ->
  exists rq hs cs,
    request_segment toJSON r = Normal rq /\
    toJSON (responseHeaders r) true = Normal hs /\
    toJSON (responseContent r) true = Normal cs /\
    text = header_line r ++ rq
             ++ ("  " ++ "Response headers: " ++ _indent hs ++ nl)
             ++ ("  " ++ "Response JSON: " ++ _indent cs ++ nl)
             ++ ("  " ++ "Response (" ++ Number_toString (statusCode r)
                   ++ "): Network latency " ++ Number_toString (timeTaken r)
                   ++ "ms" ++ nl) /\
    exists before,
      text = before ++ "  Response (" ++ Number_toString (statusCode r)
               ++ "): Network latency " ++ Number_toString (timeTaken r)
               ++ "ms" ++ nl.
Proof.
  intros H. destruct (render_segments r text H) as (rq & hs & cs & Hrq & Hhs & Hcs & ->).
  exists rq, hs, cs. repeat split; try assumption.
  eexists. unfold status_line. rewrite <- !append_assoc. reflexivity.
Qed.

(** ** The adapter *)

(** C7: when rendering a record fails, the observer fails with the same
    exception and the callback is not called; a serializer that throws on
    a present [requestContent] makes rendering fail with what it
    threw. *)
Theorem render_failure_reaches_caller_not_sink
    {W : Type} (sink : loggerCallback W) (r : RequestResult)
    (w : W) (calls : list string) :
  (forall e, render r = Throw e ->
             logger toJSON (recording sink) r (w, calls) = (Throw e, (w, calls))) /\
  (forall content e,
      requestContent r = Some content -> content <> JNull ->
      toJSON content true = Throw e -> render r = Throw e).
Proof.
  split.
  - intros e H. unfold logger. now rewrite H.
  - intros content e Hc Hn Ht.
    rewrite render_outcome, body_outcome. cbv zeta. simpl requestResult.
    unfold request_segment, _showJSON. rewrite Hc.
    destruct content; try congruence; simpl; now rewrite Ht.
Qed.

(** C6, as the code has it: the observer calls the callback exactly once,
    with the whole rendered block, and its own outcome is the outcome of
    the callback, the returned value included. *)
Theorem logger_calls_sink_once_and_returns_its_result
    {W : Type} (sink : loggerCallback W) (r : RequestResult)
    (w : W) (text : string) :
  render r = Normal text ->
  logger toJSON sink r w = sink text w /\
  logger toJSON (recording sink) r (w, [])
  = (fst (sink text w), (snd (sink text w), [text])).
Proof.
  intros H. unfold logger. rewrite H. split; [reflexivity|].
  unfold recording. now destruct (sink text w).
Qed.

End FormatterProperties.

(** ** Counting the lines that begin with a label *)

Lemma count_lines_app (label a b : string) :
  count_lines_with label (a ++ nl ++ b)
  = count_lines_with label a + count_lines_with label b.
Proof.
  unfold count_lines_with, lines. change (nl ++ b) with (String LF b).
  now rewrite split_app, filter_app, length_app.
Qed.

Lemma count_lines_newline_free (label s : string) :
  newline_free s = true ->
  count_lines_with label s = if prefix label s then 1 else 0.
Proof.
  intros H. unfold count_lines_with, lines. rewrite (split_newline_free s H).
  simpl. now destruct (prefix label s).
Qed.

Lemma lines_labelled_indent (label js : string) :
  newline_free label = true ->
  lines (label ++ _indent js)
  = (label ++ hd "" (lines js)) :: map (append "  ") (tl (lines js)).
Proof.
  intros Hl. unfold lines, _indent. cbv zeta.
  pose proof (split_pieces_newline_free js) as Hall.
  destruct (split LF js) as [|first rest] eqn:E;
    [now destruct (split_nonempty LF js)|].
  exact (split_join_indent label first rest Hl Hall).
Qed.

Lemma newline_free_uint (d : Decimal.uint) :
  newline_free (NilEmpty.string_of_uint d) = true.
Proof. induction d; simpl; auto. Qed.

Lemma newline_free_number (n : Z) : newline_free (Number_toString n) = true.
Proof.
  unfold Number_toString.
  destruct (Z.to_int n) as [d|d]; simpl;
    destruct d; simpl; auto using newline_free_uint.
Qed.

Section RequestLine.

Variable toJSON : value -> bool -> completion string.

Local Abbreviation render := (showRequestResult toJSON).

(** A labelled segment whose label is not the request label has no line
    that begins with the request label, unless the JSON text has one. *)
Lemma count_in_segment (label js : string) :
  newline_free label = true ->
  interior_lines_avoid "Request JSON:" js = true ->
  count_lines_with "  Request JSON:" (label ++ _indent js)
  = if prefix "  Request JSON:" (label ++ hd "" (lines js)) then 1 else 0.
Proof.
  intros Hl Hjs. unfold count_lines_with.
  rewrite (lines_labelled_indent label js Hl).
  unfold interior_lines_avoid in Hjs.
  assert (Hrest : filter (prefix "  Request JSON:")
                    (map (append "  ") (tl (lines js))) = []).
  { induction (tl (lines js)) as [|l ls IH]; [reflexivity|].
    simpl in Hjs. apply andb_true_iff in Hjs. destruct Hjs as [Hl' Hls].
    apply negb_true_iff in Hl'.
    cbn [map filter].
    change (prefix "  Request JSON:" ("  " ++ l)) with (prefix "Request JSON:" l).
    rewrite Hl'. now apply IH. }
  cbn [filter]. rewrite Hrest.
  now destruct (prefix "  Request JSON:" (label ++ hd "" (lines js))).
Qed.

Hypothesis json_lines :
  forall v js, toJSON v true = Normal js ->
               interior_lines_avoid "Request JSON:" js = true.

Lemma count_in_response_tail (r : RequestResult) (hs cs : string) :
  toJSON (responseHeaders r) true = Normal hs ->
  toJSON (responseContent r) true = Normal cs ->
  count_lines_with "  Request JSON:"
    (("  Response headers: " ++ _indent hs ++ nl)
       ++ ("  Response JSON: " ++ _indent cs ++ nl) ++ status_line r) = 0.
Proof.
  intros Hhs Hcs.
  replace (("  Response headers: " ++ _indent hs ++ nl)
             ++ ("  Response JSON: " ++ _indent cs ++ nl) ++ status_line r)
    with (("  Response headers: " ++ _indent hs) ++ nl
            ++ ("  Response JSON: " ++ _indent cs) ++ nl
            ++ ("  Response (" ++ Number_toString (statusCode r)
                  ++ "): Network latency " ++ Number_toString (timeTaken r) ++ "ms")
            ++ nl ++ "")
    by (unfold status_line; now rewrite !append_assoc).
  rewrite !count_lines_app.
  rewrite !count_in_segment by (reflexivity || eauto).
  rewrite count_lines_newline_free
    by (rewrite !newline_free_app, !newline_free_number; reflexivity).
  reflexivity.
Qed.

(** C3, as the code has it: when the header (method, path and query
    string) has no line feed and the serializer puts the request label at
    the start of no line, a record without request content renders to a
    block with no line that begins with the indented request label, and a
    record with request content to a block with exactly one, the segment
    right after the header: two spaces, the label, the indented JSON text
    of the content and a line feed. *)
Theorem request_line_iff_content_present (r : RequestResult) (text : string) :
  render r = Normal text ->
  newline_free (method r) && newline_free (path r)
    && newline_free (_queryString (query r)) = true ->
  if not_nullish (requestContent r) then
    count_lines_with "  Request JSON:" text = 1 /\
    exists content js rest,
      requestContent r = Some content /\
      toJSON content true = Normal js /\
      text = header_line r
               ++ ("  " ++ "Request JSON: " ++ _indent js ++ nl) ++ rest
  else
    count_lines_with "  Request JSON:" text = 0.
Proof.
  intros Hr Hh.
  apply andb_true_iff in Hh. destruct Hh as [Hh Hq].
  apply andb_true_iff in Hh. destruct Hh as [Hm Hp].
  destruct (render_segments toJSON r text Hr) as (rq & hs & cs & Hrq & Hhs & Hcs & ->).
  pose proof (count_in_response_tail r hs cs Hhs Hcs) as Htail.
  assert (Hhead : forall rest,
             count_lines_with "  Request JSON:" (header_line r ++ rest)
             = count_lines_with "  Request JSON:" rest).
  { intros rest. unfold header_line.
    replace (("Fauna " ++ method r ++ " /" ++ path r ++ _queryString (query r) ++ nl)
               ++ rest)
      with (("Fauna " ++ method r ++ " /" ++ path r ++ _queryString (query r))
              ++ nl ++ rest)
      by (now rewrite !append_assoc).
    rewrite count_lines_app, count_lines_newline_free
      by (rewrite !newline_free_app, Hm, Hp, Hq; reflexivity).
    reflexivity. }
  unfold request_segment in Hrq.
  destruct (requestContent r) as [content|] eqn:Hc; [|cbn [not_nullish] in *].
  - destruct (not_nullish (Some content)).
    + unfold _showJSON in Hrq.
      destruct (toJSON content true) as [js|e] eqn:Hjs; [|discriminate].
      assert (Hrq' : rq = "  Request JSON: " ++ _indent js ++ nl)
        by (now injection Hrq).
      subst rq. clear Hrq. split.
      * rewrite Hhead.
        replace (("  Request JSON: " ++ _indent js ++ nl)
                   ++ ("  Response headers: " ++ _indent hs ++ nl)
                   ++ ("  Response JSON: " ++ _indent cs ++ nl) ++ status_line r)
          with (("  Request JSON: " ++ _indent js) ++ nl
                  ++ ("  Response headers: " ++ _indent hs ++ nl)
                  ++ ("  Response JSON: " ++ _indent cs ++ nl) ++ status_line r)
          by (now rewrite !append_assoc).
        rewrite count_lines_app, Htail.
        rewrite count_in_segment by (reflexivity || eauto).
        cbn [append prefix].
        destruct (hd "" (lines js)); reflexivity.
      * exists content, js. eexists.
        split; [reflexivity | split; [exact Hjs | reflexivity]].
    + injection Hrq as <-. rewrite Hhead. cbn [append]. exact Htail.
  - injection Hrq as <-. rewrite Hhead. cbn [append]. exact Htail.
Qed.

End RequestLine.

(** ** The JSON text of a value *)

(** Induction on values, with the hypothesis for every item of an array
    and every member of an object. *)
Lemma value_nested_ind (P : value -> Prop) :
  P JNull ->
  (forall b, P (JBool b)) ->
  (forall n, P (JNum n)) ->
  (forall s, P (JStr s)) ->
  (forall items, Forall P items -> P (JArr items)) ->
  (forall members, Forall (fun m => P (snd m)) members -> P (JObj members)) ->
  P JSelfRef ->
  forall v, P v.
Proof.
  intros HN HB HZ HS HA HO HR.
  fix IH 1.
  intros [| b | n | s | items | members |];
    [exact HN | apply HB | apply HZ | apply HS | | | exact HR].
  - apply HA.
    exact ((fix go (l : list value) : Forall P l :=
              match l with
              | [] => Forall_nil P
              | x :: l' => Forall_cons x (IH x) (go l')
              end) items).
  - apply HO.
    exact ((fix go (l : list (string * value)) : Forall (fun m => P (snd m)) l :=
              match l with
              | [] => Forall_nil _
              | (key, x) :: l' =>
                  Forall_cons (P := fun m => P (snd m)) (key, x) (IH x) (go l')
              end) members).
Qed.

Lemma stringify_array (k : nat) (x : value) (items : list value) :
  stringify k (JArr (x :: items))
  = "[" ++ nl ++ gap (S k)
        ++ join ("," ++ nl ++ gap (S k)) (map (stringify (S k)) (x :: items))
        ++ nl ++ gap k ++ "]".
Proof. reflexivity. Qed.

Lemma stringify_object (k : nat) (m : string * value) (members : list (string * value)) :
  stringify k (JObj (m :: members))
  = "{" ++ nl ++ gap (S k)
        ++ join ("," ++ nl ++ gap (S k))
             (map (fun m => quote_string (fst m) ++ ": " ++ stringify (S k) (snd m))
                (m :: members))
        ++ nl ++ gap k ++ "}".
Proof.
  cbn [stringify]. do 5 f_equal. apply map_ext. now intros [key x].
Qed.

Lemma newline_free_escape_char (c : ascii) : newline_free (escape_char c) = true.
Proof. destruct c as [[] [] [] [] [] [] [] []]; reflexivity. Qed.

Lemma newline_free_escape (s : string) : newline_free (escape s) = true.
Proof.
  induction s as [|c s IH]; [reflexivity|].
  simpl. now rewrite newline_free_app, newline_free_escape_char, IH.
Qed.

Lemma newline_free_quote_string (s : string) : newline_free (quote_string s) = true.
Proof.
  unfold quote_string. cbn [newline_free].
  now rewrite newline_free_app, newline_free_escape.
Qed.

Lemma newline_free_gap (k : nat) : newline_free (gap k) = true.
Proof. induction k; [reflexivity | exact IHk]. Qed.

(** *** Line feeds are followed by the indentation or a closing bracket *)

Lemma layout_newline_free (s : string) :
  newline_free s = true -> line_feeds_in_layout s = true.
Proof.
  induction s as [|c s IH]; [reflexivity|].
  simpl. intros H. apply andb_true_iff in H. destruct H as [Hc Hs].
  apply negb_true_iff in Hc. now rewrite Hc, IH.
Qed.

Lemma layout_app (a b : string) :
  line_feeds_in_layout a = true -> line_feeds_in_layout b = true ->
  line_feeds_in_layout (a ++ b) = true.
Proof.
  induction a as [|c a IH]; [now intros|].
  intros Ha Hb. cbn [line_feeds_in_layout] in Ha.
  apply andb_true_iff in Ha. destruct Ha as [Hc Ha].
  cbn [append line_feeds_in_layout]. rewrite (IH Ha Hb), andb_true_r.
  destruct (Ascii.eqb c LF); [|reflexivity].
  destruct a; [discriminate | exact Hc].
Qed.

Lemma layout_break (k : nat) (s : string) :
  line_feeds_in_layout s = true ->
  line_feeds_in_layout (nl ++ gap (S k) ++ s) = true.
Proof.
  intros H. change (nl ++ gap (S k) ++ s) with (String LF ("  " ++ gap k ++ s)).
  rewrite <- append_assoc.
  cbn [line_feeds_in_layout append]. cbn.
  apply layout_app; [|assumption].
  apply layout_newline_free, newline_free_gap.
Qed.

Lemma opens_line_not_LF (c : ascii) :
  opens_line c = true -> Ascii.eqb c LF = false.
Proof.
  intros H. destruct (Ascii.eqb c LF) eqn:E; [|reflexivity].
  apply Ascii.eqb_eq in E. subst. discriminate.
Qed.

Lemma layout_close (k : nat) (bracket : ascii) :
  opens_line bracket = true ->
  line_feeds_in_layout (nl ++ gap k ++ String bracket "") = true.
Proof.
  intros H.
  assert (Hb : line_feeds_in_layout (String bracket "") = true)
    by (cbn [line_feeds_in_layout]; now rewrite (opens_line_not_LF _ H)).
  destruct k.
  - change (line_feeds_in_layout (String LF (String bracket "")) = true).
    cbn [line_feeds_in_layout] in *. rewrite Hb, H. reflexivity.
  - now apply layout_break.
Qed.

Lemma layout_join (sep : string) (l : list string) :
  line_feeds_in_layout sep = true ->
  Forall (fun s => line_feeds_in_layout s = true) l ->
  line_feeds_in_layout (join sep l) = true.
Proof.
  intros Hsep. induction 1 as [|x l Hx Hl IH]; [reflexivity|].
  destruct l as [|y l]; [exact Hx|].
  rewrite join_cons. auto using layout_app.
Qed.

Lemma layout_stringify (v : value) :
  forall k, line_feeds_in_layout (stringify k v) = true.
Proof.
  induction v as [| b | n | s | items IH | members IH |] using value_nested_ind;
    intros k; try reflexivity.
  - now destruct b.
  - apply layout_newline_free, newline_free_number.
  - apply layout_newline_free, newline_free_quote_string.
  - destruct items as [|x items]; [reflexivity|].
    rewrite stringify_array.
    apply layout_app; [reflexivity|].
    apply layout_break. apply layout_app; [|apply layout_close; reflexivity].
    apply layout_join.
    + apply layout_app; [reflexivity|]. rewrite <- (append_nil_r (gap (S k))).
      apply layout_break. reflexivity.
    + apply Forall_map. revert IH. apply Forall_impl. auto.
  - destruct members as [|m members]; [reflexivity|].
    rewrite stringify_object.
    apply layout_app; [reflexivity|].
    apply layout_break. apply layout_app; [|apply layout_close; reflexivity].
    apply layout_join.
    + apply layout_app; [reflexivity|]. rewrite <- (append_nil_r (gap (S k))).
      apply layout_break. reflexivity.
    + apply Forall_map. revert IH. apply Forall_impl. intros a Ha.
      apply layout_app; [apply layout_newline_free, newline_free_quote_string|].
      apply layout_app; [reflexivity | apply Ha].
Qed.

Lemma layout_interior_lines (s : string) :
  line_feeds_in_layout s = true ->
  Forall (fun l => exists c r, l = String c r /\ opens_line c = true) (tl (lines s)).
Proof.
  unfold lines. induction s as [|c s IH]; [constructor|].
  cbn [line_feeds_in_layout]. intros H.
  apply andb_true_iff in H. destruct H as [Hc Hs]. specialize (IH Hs).
  cbn [split]. destruct (Ascii.eqb c LF) eqn:E.
  - cbn [tl]. destruct s as [|d s']; [discriminate|].
    assert (Hd : Ascii.eqb d LF = false) by now apply opens_line_not_LF.
    destruct (split_cons_other LF d s' Hd) as (piece & pieces & _ & Heq).
    rewrite Heq in *.
    constructor; [now exists d, piece | exact IH].
  - destruct (split LF s) as [|piece pieces]; [constructor | exact IH].
Qed.

Lemma layout_avoids_request_label (s : string) :
  line_feeds_in_layout s = true ->
  interior_lines_avoid "Request JSON:" s = true.
Proof.
  intros H. apply layout_interior_lines in H. unfold interior_lines_avoid.
  apply forallb_forall. intros l Hl.
  rewrite Forall_forall in H. destruct (H l Hl) as (c & r & -> & Hc).
  cbn [prefix]. destruct (ascii_dec "R" c) as [<-|]; [discriminate | reflexivity].
Qed.

Lemma toJSON_model_lines (v : value) (js : string) :
  toJSON_model v true = Normal js ->
  interior_lines_avoid "Request JSON:" js = true.
Proof.
  unfold toJSON_model. destruct (serializable v); [|discriminate].
  intros [= <-]. apply layout_avoids_request_label, layout_stringify.
Qed.

(** *** [_indent] on a JSON text *)

Lemma indent_cons (c : ascii) (x : string) :
  _indent (String c x)
  = if Ascii.eqb c LF then nl ++ "  " ++ _indent x else String c (_indent x).
Proof.
  unfold _indent. cbv zeta. cbn [split].
  destruct (Ascii.eqb c LF).
  - destruct (split LF x) as [|piece pieces] eqn:E;
      [now destruct (split_nonempty LF x)|].
    rewrite join_cons. now rewrite append_assoc.
  - destruct (split LF x) as [|piece pieces] eqn:E;
      [now destruct (split_nonempty LF x)|].
    destruct pieces; reflexivity.
Qed.

Lemma indent_app (a b : string) : _indent (a ++ b) = _indent a ++ _indent b.
Proof.
  induction a as [|c a IH]; [reflexivity|].
  cbn [append]. rewrite !indent_cons, IH.
  destruct (Ascii.eqb c LF); [now rewrite !append_assoc | reflexivity].
Qed.

Lemma indent_newline_free (s : string) : newline_free s = true -> _indent s = s.
Proof.
  intros H. unfold _indent. cbv zeta. now rewrite (split_newline_free s H).
Qed.

Lemma indent_join (sep : string) (l : list string) :
  _indent (join sep l) = join (_indent sep) (map _indent l).
Proof.
  induction l as [|x l IH]; [reflexivity|].
  destruct l as [|y l]; [reflexivity|].
  rewrite join_cons. cbn [map]. rewrite join_cons.
  rewrite !indent_app. cbn [map] in IH. now rewrite IH.
Qed.

Lemma indent_nl : _indent nl = nl ++ "  ".
Proof. reflexivity. Qed.

Lemma indent_break (k : nat) : _indent (nl ++ gap k) = nl ++ gap (S k).
Proof.
  rewrite indent_app, (indent_newline_free (gap k)) by apply newline_free_gap.
  reflexivity.
Qed.

Lemma indent_separator (k : nat) :
  _indent ("," ++ nl ++ gap k) = "," ++ nl ++ gap (S k).
Proof.
  change ("," ++ nl ++ gap k) with (String "," (nl ++ gap k)).
  rewrite indent_cons. cbn [Ascii.eqb Bool.eqb]. now rewrite indent_break.
Qed.

(** Indenting the text of a value is printing it one level deeper. *)
Lemma indent_stringify (v : value) :
  forall k, _indent (stringify k v) = stringify (S k) v.
Proof.
  induction v as [| b | n | s | items IH | members IH |] using value_nested_ind;
    intros k; try reflexivity.
  - now destruct b.
  - apply indent_newline_free, newline_free_number.
  - apply indent_newline_free, newline_free_quote_string.
  - destruct items as [|x items]; [reflexivity|].
    rewrite !stringify_array.
    rewrite !indent_app, indent_join, indent_separator, indent_nl.
    rewrite !(indent_newline_free (gap _)) by apply newline_free_gap.
    rewrite map_map.
    replace (map (fun x0 => _indent (stringify (S k) x0)) (x :: items))
      with (map (stringify (S (S k))) (x :: items));
      [now rewrite !append_assoc|].
    apply map_ext_in. intros a Ha. rewrite Forall_forall in IH.
    symmetry. now apply IH.
  - destruct members as [|m members]; [reflexivity|].
    rewrite !stringify_object.
    rewrite !indent_app, indent_join, indent_separator, indent_nl.
    rewrite !(indent_newline_free (gap _)) by apply newline_free_gap.
    rewrite map_map.
    replace (map (fun m0 => _indent (quote_string (fst m0) ++ ": "
                                        ++ stringify (S k) (snd m0))) (m :: members))
      with (map (fun m0 => quote_string (fst m0) ++ ": "
                             ++ stringify (S (S k)) (snd m0)) (m :: members));
      [now rewrite !append_assoc|].
    apply map_ext_in. intros a Ha. rewrite Forall_forall in IH.
    rewrite !indent_app, (indent_newline_free (quote_string _))
      by apply newline_free_quote_string.
    now rewrite (IH a Ha).
Qed.

(** *** Reading back what was printed *)

Lemma skip_ws_idempotent (s : string) : skip_ws (skip_ws s) = skip_ws s.
Proof.
  induction s as [|c s IH]; [reflexivity|].
  cbn [skip_ws]. destruct (is_ws c) eqn:E; [exact IH|].
  cbn [skip_ws]. now rewrite E.
Qed.

Lemma skip_ws_gap (k : nat) (s : string) : skip_ws (gap k ++ s) = skip_ws s.
Proof. induction k as [|k IH]; [reflexivity | exact IH]. Qed.

Lemma skip_ws_break (k : nat) (s : string) :
  skip_ws (nl ++ gap k ++ s) = skip_ws s.
Proof. exact (skip_ws_gap k s). Qed.

Lemma skip_ws_token (c : ascii) (s : string) :
  is_ws c = false -> skip_ws (String c s) = String c s.
Proof. intros H. cbn [skip_ws]. now rewrite H. Qed.

Lemma parse_value_skip_ws (fuel : nat) (s : string) :
  parse_value fuel (skip_ws s) = parse_value fuel s.
Proof.
  destruct fuel; [reflexivity|].
  cbn [parse_value]. now rewrite skip_ws_idempotent.
Qed.

Lemma parse_value_after_break (fuel k : nat) (s : string) :
  parse_value fuel (nl ++ gap k ++ s) = parse_value fuel s.
Proof.
  rewrite <- parse_value_skip_ws, skip_ws_break. apply parse_value_skip_ws.
Qed.

(** Strings. *)

Lemma parse_chars_escape_char (c : ascii) (tail : string) :
  parse_chars (escape_char c ++ tail) = prepend (String c "") (parse_chars tail).
Proof. destruct c as [[] [] [] [] [] [] [] []]; reflexivity. Qed.

Lemma parse_chars_escape (s rest : string) :
  parse_chars (escape s ++ String quote rest) = Some (s, rest).
Proof.
  induction s as [|c s IH]; [reflexivity|].
  cbn [escape]. rewrite append_assoc, parse_chars_escape_char, IH. reflexivity.
Qed.

Lemma parse_chars_quote_string (s rest : string) :
  exists body,
    quote_string s ++ rest = String quote body /\
    parse_chars body = Some (s, rest).
Proof.
  exists (escape s ++ String quote rest). split.
  - unfold quote_string. cbn [append]. now rewrite append_assoc.
  - apply parse_chars_escape.
Qed.

(** Numbers. *)

Lemma span_digits_uint (d : Decimal.uint) (rest : string) :
  number_ends rest = true ->
  span_digits (NilEmpty.string_of_uint d ++ rest)
  = (NilEmpty.string_of_uint d, rest).
Proof.
  intros Hrest.
  induction d; cbn [NilEmpty.string_of_uint append span_digits];
    try (change (is_digit _) with true; cbv iota; now rewrite IHd).
  destruct rest as [|c rest]; [reflexivity|].
  cbn [span_digits]. cbn [number_ends] in Hrest.
  apply negb_true_iff in Hrest. repeat (apply orb_false_iff in Hrest as [Hrest _]).
  now rewrite Hrest.
Qed.

Lemma canonical_nzhead (d : Decimal.uint) :
  Decimal.nzhead d = d -> d <> Decimal.Nil -> canonical d.
Proof.
  intros H Hn. split; [assumption|].
  destruct d; try reflexivity; try congruence.
  now destruct (DecimalFacts.nzhead_nonzero (Decimal.D0 d) d).
Qed.

Lemma canonical_to_int (n : Z) :
  match Z.to_int n with
  | Decimal.Pos d | Decimal.Neg d => canonical d
  end.
Proof.
  assert (H : Decimal.norm (Z.to_int n) = Z.to_int n)
    by (rewrite <- DecimalZ.to_of; now rewrite DecimalZ.of_to).
  destruct (Z.to_int n) as [d|d]; cbn [Decimal.norm] in H.
  - injection H as H. unfold Decimal.unorm in H.
    destruct (Decimal.nzhead d) eqn:E;
      try (apply canonical_nzhead; congruence).
    subst d. split; [discriminate | reflexivity].
  - destruct (Decimal.nzhead d) eqn:E; try discriminate;
      injection H as H; apply canonical_nzhead; congruence.
Qed.

Lemma parse_digits_uint (d : Decimal.uint) (rest : string) :
  canonical d -> number_ends rest = true ->
  parse_digits (NilZero.string_of_uint d ++ rest) = Some (d, rest).
Proof.
  intros [Hn Hz] Hrest. unfold parse_digits.
  assert (E : NilZero.string_of_uint d = NilEmpty.string_of_uint d)
    by (destruct d; congruence || reflexivity).
  rewrite E at 1. rewrite (span_digits_uint d rest Hrest), <- E, Hz, Hrest.
  cbn [andb]. now rewrite (NilZero.usu d Hn).
Qed.

Lemma number_head (n : Z) :
  exists c r, Number_toString n = String c r /\ opens_number c = true.
Proof.
  unfold Number_toString.
  destruct (Z.to_int n) as [d|d]; cbn [NilZero.string_of_int].
  - destruct d; cbn; eauto.
  - eauto.
Qed.

Lemma parse_number_toString (n : Z) (rest : string) :
  number_ends rest = true ->
  parse_number (Number_toString n ++ rest) = Some (n, rest).
Proof.
  intros Hrest. unfold Number_toString.
  pose proof (canonical_to_int n) as Hc. pose proof (DecimalZ.of_to n) as Hz.
  destruct (Z.to_int n) as [d|d]; cbn [NilZero.string_of_int].
  - assert (Hd := parse_digits_uint d rest Hc Hrest).
    destruct (NilZero.string_of_uint d) as [|c r] eqn:E.
    + destruct d; discriminate.
    + cbn [append parse_number].
      assert (Hm : Ascii.eqb c "-" = false).
      { destruct d; cbn in E; injection E as <- _; reflexivity. }
      rewrite Hm. cbn [append] in Hd. now rewrite Hd, Hz.
  - cbn [append parse_number]. cbn [Ascii.eqb Bool.eqb].
    now rewrite (parse_digits_uint d rest Hc Hrest), Hz.
Qed.

Lemma number_dispatch (c : ascii) :
  opens_number c = true ->
  is_ws c = false /\
  Ascii.eqb c "n" = false /\ Ascii.eqb c "t" = false /\ Ascii.eqb c "f" = false /\
  Ascii.eqb c quote = false /\ Ascii.eqb c "[" = false /\ Ascii.eqb c "{" = false /\
  Ascii.eqb c "]" = false /\ Ascii.eqb c "}" = false.
Proof.
  destruct c as [[] [] [] [] [] [] [] []]; intros H;
    try discriminate H; repeat split; reflexivity.
Qed.

Lemma parse_value_number (f : nat) (n : Z) (rest : string) :
  number_ends rest = true ->
  parse_value (S f) (Number_toString n ++ rest) = Some (JNum n, rest).
Proof.
  intros Hrest. pose proof (parse_number_toString n rest Hrest) as Hp.
  destruct (number_head n) as (c & r & E & Hc). rewrite E in *.
  destruct (number_dispatch c Hc) as (Hw & Hn & Ht & Hf & Hq & Ha & Ho & _).
  cbn [append] in *. cbn [parse_value].
  rewrite (skip_ws_token c _ Hw), Hn, Ht, Hf, Hq, Ha, Ho, Hp. reflexivity.
Qed.

(** Values. *)

Lemma stringify_head (k : nat) (v : value) :
  serializable v = true ->
  exists c r,
    stringify k v = String c r /\ is_ws c = false /\
    Ascii.eqb c "]" = false /\ Ascii.eqb c "}" = false.
Proof.
  destruct v as [| [] | n | s | [|x items] | [|m members] |]; intros H;
    try discriminate H;
    try (eexists; eexists; split; [reflexivity | repeat split; reflexivity]).
  destruct (number_head n) as (c & r & E & Hc).
  destruct (number_dispatch c Hc) as (Hw & _ & _ & _ & _ & _ & _ & Ha & Ho).
  exists c, r. cbn [stringify]. auto.
Qed.

Lemma size_positive (v : value) : 1 <= size v.
Proof. destruct v; simpl; lia. Qed.

Lemma list_sum_member {A} (g : A -> nat) (x : A) (l : list A) :
  In x l -> g x <= list_sum (map g l).
Proof.
  induction l as [|y l IH]; [intros []|].
  intros [->|H]; simpl; [lia|]. specialize (IH H). lia.
Qed.

Lemma length_le_list_sum {A} (g : A -> nat) (l : list A) :
  (forall x, 1 <= g x) -> List.length l <= list_sum (map g l).
Proof.
  intros Hg. induction l as [|y l IH]; [reflexivity|].
  simpl. specialize (Hg y). lia.
Qed.

Lemma skip_ws_close (k : nat) (bracket : ascii) (rest : string) :
  is_ws bracket = false ->
  skip_ws (nl ++ gap k ++ String bracket rest) = String bracket rest.
Proof. intros H. rewrite skip_ws_break. now apply skip_ws_token. Qed.

Lemma parse_value_after_space (fuel : nat) (s : string) :
  parse_value fuel (" " ++ s) = parse_value fuel s.
Proof.
  rewrite <- parse_value_skip_ws. change (skip_ws (" " ++ s)) with (skip_ws s).
  apply parse_value_skip_ws.
Qed.

Section ReadSequences.

Variable f : nat.

Local Abbreviation read_back := (read_back f).

Lemma parse_elements_stringify (items : list value) :
  forall x n k rest,
    List.length (x :: items) <= n ->
    Forall read_back (x :: items) ->
    parse_elements (parse_value f) n
      (nl ++ gap (S k)
          ++ join ("," ++ nl ++ gap (S k)) (map (stringify (S k)) (x :: items))
          ++ nl ++ gap k ++ String "]" rest)
    = Some (x :: items, rest).
Proof.
  induction items as [|y items IH]; intros x n k rest Hn Hall;
    inversion Hall as [|? ? Hx Hrest]; subst;
    (destruct n as [|n]; [cbn [List.length] in Hn; lia|]);
    cbn [parse_elements]; rewrite parse_value_after_break.
  - cbn [map join]. rewrite (Hx (S k)) by reflexivity.
    rewrite skip_ws_close by reflexivity. reflexivity.
  - cbn [map]. rewrite join_cons, !append_assoc.
    rewrite (Hx (S k)) by reflexivity.
    change (skip_ws ("," ++ ?t)) with (String "," t). cbv iota. cbv beta.
    cbn [map] in IH. rewrite IH; [reflexivity | cbn [List.length] in *; lia | assumption].
Qed.

Lemma parse_members_stringify (members : list (string * value)) :
  forall m n k rest,
    List.length (m :: members) <= n ->
    Forall (fun m => read_back (snd m)) (m :: members) ->
    parse_members (parse_value f) n
      (nl ++ gap (S k)
          ++ join ("," ++ nl ++ gap (S k))
               (map (fun m => quote_string (fst m) ++ ": " ++ stringify (S k) (snd m))
                  (m :: members))
          ++ nl ++ gap k ++ String "}" rest)
    = Some (m :: members, rest).
Proof.
  induction members as [|m' members IH]; intros [key x] n k rest Hn Hall;
    inversion Hall as [|? ? Hx Hrest]; subst; cbn [snd] in Hx;
    (destruct n as [|n]; [cbn [List.length] in Hn; lia|]);
    cbn [parse_members]; rewrite skip_ws_break.
  - cbn [map join fst snd]. rewrite !append_assoc.
    destruct (parse_chars_quote_string key
                (": " ++ stringify (S k) x ++ nl ++ gap k ++ String "}" rest))
      as (body & -> & Hbody).
    rewrite skip_ws_token by reflexivity.
    change (Ascii.eqb quote quote) with true. cbv iota. rewrite Hbody.
    change (skip_ws (": " ++ ?t)) with (String ":" (" " ++ t)). cbv iota.
    rewrite parse_value_after_space. rewrite (Hx (S k)) by reflexivity.
    rewrite skip_ws_close by reflexivity. reflexivity.
  - cbn [map]. rewrite join_cons. cbn [fst snd]. rewrite !append_assoc.
    match goal with
    | |- context [quote_string key ++ ?t] =>
        destruct (parse_chars_quote_string key t) as (body & -> & Hbody)
    end.
    rewrite skip_ws_token by reflexivity.
    change (Ascii.eqb quote quote) with true. cbv iota. rewrite Hbody.
    change (skip_ws (": " ++ ?t)) with (String ":" (" " ++ t)). cbv iota.
    rewrite parse_value_after_space. rewrite (Hx (S k)) by reflexivity.
    change (skip_ws ("," ++ ?t)) with (String "," t). cbv iota. cbv beta.
    cbn [map] in IH. rewrite IH; [reflexivity | cbn [List.length] in *; lia | assumption].
Qed.

End ReadSequences.

Lemma serializable_items (items : list value) :
  serializable (JArr items) = true ->
  Forall (fun v => serializable v = true) items.
Proof. intros H. apply Forall_forall. now apply forallb_forall. Qed.

Lemma serializable_members (members : list (string * value)) :
  serializable (JObj members) = true ->
  Forall (fun m => serializable (snd m) = true) members.
Proof.
  intros H. apply Forall_forall. intros m Hm.
  cbn [serializable] in H. rewrite forallb_forall in H. now apply H.
Qed.

Lemma first_item_opens (k : nat) (piece : string) (pieces : list string)
    (sep tail : string) (c : ascii) (r : string) :
  piece = String c r -> is_ws c = false ->
  exists r',
    skip_ws (nl ++ gap (S k) ++ join sep (piece :: pieces) ++ tail) = String c r'.
Proof.
  intros -> Hw. rewrite skip_ws_break.
  destruct pieces; [cbn [join] | rewrite join_cons];
    cbn [append]; rewrite skip_ws_token by assumption; eauto.
Qed.

(** With fuel for every node of a serializable value, the reader returns
    the value from its text and stops right after it. *)
Lemma parse_value_stringify (fuel : nat) :
  forall v, size v <= fuel -> serializable v = true -> read_back fuel v.
Proof.
  induction fuel as [|f IH]; intros v Hsize Hser;
    [pose proof (size_positive v); lia|].
  intros k rest Hrest.
  destruct v as [| [] | n | s | [|x items] | [|m members] |];
    try reflexivity; try discriminate Hser.
  - now apply parse_value_number.
  - destruct (parse_chars_quote_string s rest) as (body & E & Hbody).
    cbn [stringify]. rewrite E. cbn [parse_value].
    rewrite skip_ws_token by reflexivity.
    change (Ascii.eqb quote "n") with false. change (Ascii.eqb quote "t") with false.
    change (Ascii.eqb quote "f") with false. change (Ascii.eqb quote quote) with true.
    cbv iota. now rewrite Hbody.
  - change (S (list_sum (map size (x :: items))) <= S f) in Hsize.
    apply le_S_n in Hsize.
    pose proof (serializable_items _ Hser) as Hall.
    assert (Hread : Forall (read_back f) (x :: items)).
    { apply Forall_forall. intros v Hv. apply IH.
      - pose proof (list_sum_member size v _ Hv). lia.
      - rewrite Forall_forall in Hall. now apply Hall. }
    assert (Hlen : List.length (x :: items) <= f).
    { pose proof (length_le_list_sum size (x :: items) size_positive). lia. }
    assert (Hx : serializable x = true) by now inversion Hall.
    destruct (stringify_head (S k) x Hx) as (c & r & E & Hw & Hclose & _).
    rewrite stringify_array, !append_assoc.
    change ("]" ++ rest) with (String "]" rest).
    change ("[" ++ ?t) with (String "[" t). cbn [parse_value].
    rewrite skip_ws_token by reflexivity.
    change (Ascii.eqb "[" "n") with false. change (Ascii.eqb "[" "t") with false.
    change (Ascii.eqb "[" "f") with false. change (Ascii.eqb "[" quote) with false.
    change (Ascii.eqb "[" "[") with true. cbv iota.
    cbn [map].
    destruct (first_item_opens k _ (map (stringify (S k)) items)
                ("," ++ nl ++ gap (S k)) (nl ++ gap k ++ String "]" rest) c r E Hw)
      as (r' & ->).
    rewrite Hclose.
    change (stringify (S k) x :: map (stringify (S k)) items)
      with (map (stringify (S k)) (x :: items)).
    now rewrite (parse_elements_stringify f items x f k rest Hlen Hread).
  - change (S (list_sum (map (fun m => size (snd m)) (m :: members))) <= S f) in Hsize.
    apply le_S_n in Hsize.
    pose proof (serializable_members _ Hser) as Hall.
    assert (Hread : Forall (fun m => read_back f (snd m)) (m :: members)).
    { apply Forall_forall. intros a Ha. apply IH.
      - pose proof (list_sum_member (fun m => size (snd m)) a _ Ha). cbv beta in *. lia.
      - rewrite Forall_forall in Hall. now apply Hall. }
    assert (Hlen : List.length (m :: members) <= f).
    { pose proof (length_le_list_sum (fun m => size (snd m)) (m :: members)
                    (fun m => size_positive (snd m))). lia. }
    rewrite stringify_object, !append_assoc.
    change ("}" ++ rest) with (String "}" rest).
    change ("{" ++ ?t) with (String "{" t). cbn [parse_value].
    rewrite skip_ws_token by reflexivity.
    change (Ascii.eqb "{" "n") with false. change (Ascii.eqb "{" "t") with false.
    change (Ascii.eqb "{" "f") with false. change (Ascii.eqb "{" quote) with false.
    change (Ascii.eqb "{" "[") with false. change (Ascii.eqb "{" "{") with true.
    cbv iota.
    cbn [map].
    destruct (first_item_opens k (quote_string (fst m) ++ ": " ++ stringify (S k) (snd m))
                (map (fun m => quote_string (fst m) ++ ": " ++ stringify (S k) (snd m))
                   members)
                ("," ++ nl ++ gap (S k)) (nl ++ gap k ++ String "}" rest)
                quote (escape (fst m) ++ String quote (": " ++ stringify (S k) (snd m))))
      as (r' & ->); [|reflexivity|].
    { unfold quote_string. cbn [append]. now rewrite append_assoc. }
    change (Ascii.eqb quote "}") with false. cbv iota.
    change ((quote_string (fst m) ++ ": " ++ stringify (S k) (snd m))
              :: map (fun m => quote_string (fst m) ++ ": " ++ stringify (S k) (snd m))
                   members)
      with (map (fun m => quote_string (fst m) ++ ": " ++ stringify (S k) (snd m))
              (m :: members)).
    now rewrite (parse_members_stringify f members m f k rest Hlen Hread).
Qed.

Lemma length_append (a b : string) :
  String.length (a ++ b) = String.length a + String.length b.
Proof. induction a as [|c a IH]; [reflexivity | cbn; now rewrite IH]. Qed.

Lemma length_join_bound {A} (g : A -> nat) (h : A -> string) (sep : string) (l : list A) :
  Forall (fun x => g x <= String.length (h x)) l ->
  list_sum (map g l) <= String.length (join sep (map h l)).
Proof.
  induction 1 as [|x l Hx Hl IH]; [reflexivity|].
  destruct l as [|y l]; [simpl in *; lia|].
  cbn [map] in *. rewrite join_cons, !length_append.
  change (list_sum (g x :: g y :: map g l)) with (g x + list_sum (g y :: map g l)).
  lia.
Qed.

(** The text of a value has at least one character per node. *)
Lemma size_le_length (v : value) :
  serializable v = true -> forall k, size v <= String.length (stringify k v).
Proof.
  induction v as [| b | n | s | items IH | members IH |] using value_nested_ind;
    intros Hser k; try discriminate Hser.
  - cbn; lia.
  - destruct b; cbn; lia.
  - destruct (number_head n) as (c & r & E & _). cbn [stringify size].
    rewrite E. cbn. lia.
  - cbn; lia.
  - destruct items as [|x items]; [cbn; lia|].
    rewrite stringify_array, !length_append.
    change (size (JArr (x :: items))) with (S (list_sum (map size (x :: items)))).
    enough (list_sum (map size (x :: items))
            <= String.length (join ("," ++ nl ++ gap (S k))
                                (map (stringify (S k)) (x :: items))))
      by (cbn [String.length]; lia).
    apply length_join_bound.
    pose proof (serializable_items _ Hser) as Hall.
    rewrite Forall_forall in *. intros v Hv. now apply IH, Hall.
  - destruct members as [|m members]; [cbn; lia|].
    rewrite stringify_object, !length_append.
    change (size (JObj (m :: members)))
      with (S (list_sum (map (fun m => size (snd m)) (m :: members)))).
    enough (list_sum (map (fun m => size (snd m)) (m :: members))
            <= String.length
                 (join ("," ++ nl ++ gap (S k))
                    (map (fun m => quote_string (fst m) ++ ": "
                                     ++ stringify (S k) (snd m)) (m :: members))))
      by (cbn [String.length]; lia).
    apply length_join_bound.
    pose proof (serializable_members _ Hser) as Hall.
    rewrite Forall_forall in *. intros a Ha. rewrite !length_append.
    specialize (IH a Ha (Hall a Ha) (S k)). lia.
Qed.

(** [JSON_parse] reads a serializable value back from its text, at every
    depth of indentation. *)
Lemma JSON_parse_stringify (v : value) (k : nat) :
  serializable v = true -> JSON_parse (stringify k v) = Some v.
Proof.
  intros Hser. unfold JSON_parse.
  assert (Hfuel : size v <= S (String.length (stringify k v)))
    by (pose proof (size_le_length v Hser k); lia).
  pose proof (parse_value_stringify _ v Hfuel Hser k "" eq_refl) as H.
  rewrite append_nil_r in H. now rewrite H.
Qed.

(** The indented text of a value still reads back as the value. *)
Lemma JSON_parse_indented (v : value) :
  serializable v = true -> JSON_parse (_indent (stringify 0 v)) = Some v.
Proof.
  intros Hser. rewrite indent_stringify. now apply JSON_parse_stringify.
Qed.

(** ** The scenario of the spec and other concrete records *)

Lemma scenario_renders :
  showRequestResult toJSON_model scenario = Normal scenario_text.
Proof. reflexivity. Qed.

Lemma render_begins_with_header_witness :
  exists rest,
    scenario_text = "Fauna" ++ " " ++ method scenario ++ " " ++ "/" ++ path scenario
                      ++ _queryString (query scenario) ++ nl ++ rest.
Proof.
  exact (render_begins_with_header toJSON_model scenario scenario_text eq_refl).
Defined.

Lemma render_response_segments_witness :
  exists rq hs cs,
    request_segment toJSON_model scenario = Normal rq /\
    toJSON_model (responseHeaders scenario) true = Normal hs /\
    toJSON_model (responseContent scenario) true = Normal cs /\
    scenario_text
    = header_line scenario ++ rq
        ++ ("  " ++ "Response headers: " ++ _indent hs ++ nl)
        ++ ("  " ++ "Response JSON: " ++ _indent cs ++ nl)
        ++ ("  " ++ "Response (" ++ Number_toString (statusCode scenario)
              ++ "): Network latency " ++ Number_toString (timeTaken scenario)
              ++ "ms" ++ nl) /\
    exists before,
      scenario_text
      = before ++ "  Response (" ++ Number_toString (statusCode scenario)
          ++ "): Network latency " ++ Number_toString (timeTaken scenario)
          ++ "ms" ++ nl.
Proof.
  exact (render_response_segments toJSON_model scenario scenario_text eq_refl).
Defined.

Lemma indent_identity_and_distributes_witness : _indent "null" = "null".
Proof.
  exact (proj1 indent_identity_and_distributes "null" eq_refl).
Defined.

(** A header with a line feed can carry the request label although the
    record has no request content: C3 does not hold for every record. *)
Lemma request_label_from_header :
  ~ (forall r text,
        showRequestResult toJSON_model r = Normal text ->
        not_nullish (requestContent r) = false ->
        count_lines_with "  Request JSON:" text = 0).
Proof.
  intros H.
  specialize (H injected _ eq_refl eq_refl).
  vm_compute in H. discriminate H.
Qed.

Lemma request_line_iff_content_present_witness :
  count_lines_with "  Request JSON:" scenario_text = 1 /\
  exists content js rest,
    requestContent scenario = Some content /\
    toJSON_model content true = Normal js /\
    scenario_text = header_line scenario
                      ++ ("  " ++ "Request JSON: " ++ _indent js ++ nl) ++ rest.
Proof.
  exact (request_line_iff_content_present toJSON_model toJSON_model_lines
           scenario scenario_text eq_refl eq_refl).
Defined.

(** The observer hands on what the callback returns: C6 does not hold for
    a callback that returns a value. *)
Lemma logger_returns_what_sink_returns :
  ~ (forall (sink : loggerCallback unit) r w text v w',
        showRequestResult toJSON_model r = Normal text ->
        sink text w = (Normal v, w') ->
        fst (logger toJSON_model sink r w) = Normal None).
Proof.
  intros H.
  specialize (H returns_seven scenario tt scenario_text (Some (JNum 7)) tt
                eq_refl eq_refl).
  discriminate H.
Qed.

Lemma logger_calls_sink_once_and_returns_its_result_witness :
  logger toJSON_model returns_seven scenario tt = returns_seven scenario_text tt /\
  logger toJSON_model (recording returns_seven) scenario (tt, [])
  = (fst (returns_seven scenario_text tt),
     (snd (returns_seven scenario_text tt), [scenario_text])).
Proof.
  exact (logger_calls_sink_once_and_returns_its_result toJSON_model
           returns_seven scenario tt scenario_text eq_refl).
Defined.

Lemma render_failure_reaches_caller_not_sink_witness :
  logger toJSON_model (recording returns_nothing) cyclic (tt, [])
  = (Throw SerializationError, (tt, [])).
Proof.
  apply (proj1 (render_failure_reaches_caller_not_sink toJSON_model
                  returns_nothing cyclic tt [])).
  apply (proj2 (render_failure_reaches_caller_not_sink toJSON_model
                  returns_nothing cyclic tt [])
           (JObj [("self", JSelfRef)]) SerializationError eq_refl);
    [discriminate | reflexivity].
Defined.

(** *** Finding the request segment by its label *)

Lemma strip_prefix_app (p s : string) : strip_prefix p (p ++ s) = Some s.
Proof.
  induction p as [|c p IH]; [reflexivity|].
  cbn [append strip_prefix]. now rewrite Ascii.eqb_refl.
Qed.

Lemma after_first_newline_free (a label rest : string) :
  newline_free a = true ->
  after_first (String LF label) (a ++ String LF label ++ rest) = Some rest.
Proof.
  induction a as [|c a IH]; intros Ha.
  - cbn [append after_first]. destruct (label ++ rest) eqn:E;
      cbn [strip_prefix]; rewrite Ascii.eqb_refl, <- E;
      change (String LF label ++ rest) with (String LF (label ++ rest));
      cbn [strip_prefix]; rewrite ?Ascii.eqb_refl, strip_prefix_app; reflexivity.
  - cbn [newline_free] in Ha. apply andb_true_iff in Ha. destruct Ha as [Hc Ha].
    apply negb_true_iff in Hc. rewrite Ascii.eqb_sym in Hc.
    cbn [append after_first strip_prefix]. rewrite Hc. now apply IH.
Qed.

Lemma indented_layout (js : string) :
  line_feeds_in_layout js = true -> line_feeds_indented (_indent js) = true.
Proof.
  induction js as [|c js IH]; [reflexivity|].
  cbn [line_feeds_in_layout]. intros H.
  apply andb_true_iff in H. destruct H as [Hc Hjs]. specialize (IH Hjs).
  rewrite indent_cons. destruct (Ascii.eqb c LF) eqn:E.
  - destruct js as [|d js']; [discriminate|].
    rewrite indent_cons, (opens_line_not_LF d Hc) in *.
    change (nl ++ "  " ++ String d (_indent js'))
      with (String LF (String " " (String " " (String d (_indent js'))))).
    cbn [line_feeds_indented]. rewrite Hc, Ascii.eqb_refl.
    change (Ascii.eqb " " LF) with false. cbn [andb].
    cbn [line_feeds_indented] in IH. exact IH.
  - cbn [line_feeds_indented]. now rewrite E, IH.
Qed.

Lemma before_first_here (needle rest : string) :
  before_first needle (needle ++ rest) = Some "".
Proof.
  pose proof (strip_prefix_app needle rest) as H.
  destruct (needle ++ rest); cbn [before_first]; now rewrite H.
Qed.

Lemma before_first_indented (p rest : string) :
  line_feeds_indented p = true ->
  before_first (nl ++ "  Response headers: ")
    (p ++ (nl ++ "  Response headers: ") ++ rest) = Some p.
Proof.
  induction p as [|c p IH]; intros Hp.
  - cbn [append]. apply before_first_here.
  - cbn [line_feeds_indented] in Hp. apply andb_true_iff in Hp.
    destruct Hp as [Hc Hp]. cbn [append before_first].
    rewrite (IH Hp).
    enough (E : strip_prefix (nl ++ "  Response headers: ")
                  (String c (p ++ (nl ++ "  Response headers: ") ++ rest)) = None)
      by now rewrite E.
    change (nl ++ "  Response headers: ") with (String LF "  Response headers: ").
    cbn [strip_prefix]. rewrite Ascii.eqb_sym.
    destruct (Ascii.eqb c LF); [|reflexivity].
    destruct p as [|a [|b [|d p']]]; try discriminate Hc.
    apply andb_true_iff in Hc. destruct Hc as [Hab Hd].
    apply andb_true_iff in Hab. destruct Hab as [Ea Eb].
    apply Ascii.eqb_eq in Ea, Eb. subst a b.
    cbn [append strip_prefix]. cbn [Ascii.eqb Bool.eqb].
    destruct d as [[] [] [] [] [] [] [] []]; try discriminate Hd; reflexivity.
Qed.

(** ** The request content read back from the block *)

(** Rendering succeeds when the three payloads are serializable. *)
Lemma render_succeeds (r : RequestResult) :
  match requestContent r with
  | Some content => serializable content = true
  | None => True
  end ->
  serializable (responseHeaders r) = true ->
  serializable (responseContent r) = true ->
  exists text, showRequestResult toJSON_model r = Normal text.
Proof.
  intros Hrq Hhs Hcs.
  rewrite render_outcome, body_outcome. cbv zeta. cbn [requestResult].
  unfold request_segment, _showJSON, toJSON_model. rewrite Hhs, Hcs.
  destruct (requestContent r) as [content|]; cbn [not_nullish].
  - rewrite Hrq. destruct content; eauto.
  - eauto.
Qed.

(** The request label begins exactly one line of the block of a record
    with request content, when the header has no line feed. *)
Lemma request_label_once
    (r : RequestResult) (content : value) (hs cs : string) :
  newline_free (method r) = true ->
  newline_free (path r) = true ->
  newline_free (_queryString (query r)) = true ->
  serializable content = true ->
  toJSON_model (responseHeaders r) true = Normal hs ->
  toJSON_model (responseContent r) true = Normal cs ->
  count_lines_with "  Request JSON:"
    (header_line r
       ++ ("  Request JSON: " ++ _indent (stringify 0 content) ++ nl)
       ++ ("  Response headers: " ++ _indent hs ++ nl)
       ++ ("  Response JSON: " ++ _indent cs ++ nl)
       ++ status_line r) = 1.
Proof.
  intros Hm Hp Hq Hser Hhs Hcs.
  replace (header_line r
             ++ ("  Request JSON: " ++ _indent (stringify 0 content) ++ nl)
             ++ ("  Response headers: " ++ _indent hs ++ nl)
             ++ ("  Response JSON: " ++ _indent cs ++ nl) ++ status_line r)
    with (("Fauna " ++ method r ++ " /" ++ path r ++ _queryString (query r))
            ++ nl
            ++ ("  Request JSON: " ++ _indent (stringify 0 content))
            ++ nl
            ++ (("  Response headers: " ++ _indent hs ++ nl)
                  ++ ("  Response JSON: " ++ _indent cs ++ nl) ++ status_line r))
    by (unfold header_line; now rewrite !append_assoc).
  rewrite !count_lines_app.
  rewrite (count_in_response_tail toJSON_model toJSON_model_lines r hs cs Hhs Hcs).
  rewrite count_lines_newline_free
    by (rewrite !newline_free_app, Hm, Hp, Hq; reflexivity).
  rewrite count_in_segment
    by (reflexivity || apply layout_avoids_request_label, layout_stringify).
  cbn [append prefix].
  destruct (hd "" (lines (stringify 0 content))); reflexivity.
Qed.

(** C9, as the code has it: for a record whose header (method, path and
    query string) has no line feed and whose request content is
    serializable, the rendered block has exactly one line that begins with
    the request label, the payload found after that label and in front of
    the response-headers label is the indented serialization of the
    request content, and [JSON_parse] returns the request content from
    it. *)
Theorem request_json_round_trip
    (r : RequestResult) (content : value) (text : string) :
  requestContent r = Some content ->
  content <> JNull ->
  serializable content = true ->
  newline_free (method r) && newline_free (path r)
    && newline_free (_queryString (query r)) = true ->
  showRequestResult toJSON_model r = Normal text ->
  count_lines_with "  Request JSON:" text = 1 /\
  exists payload,
    request_payload text = Some payload /\
    payload = _indent (stringify 0 content) /\
    toJSON_model content true = Normal (stringify 0 content) /\
    JSON_parse payload = Some content.
Proof.
  intros Hc Hn Hser Hh Hr.
  apply andb_true_iff in Hh. destruct Hh as [Hh Hq].
  apply andb_true_iff in Hh. destruct Hh as [Hm Hpath].
  destruct (render_segments toJSON_model r text Hr)
    as (rq & hs & cs & Hrq & Hhs & Hcs & ->).
  unfold request_segment, _showJSON, toJSON_model in Hrq.
  rewrite Hc, Hser in Hrq.
  assert (Hp : not_nullish (Some content) = true)
    by (destruct content; congruence || reflexivity).
  rewrite Hp in Hrq.
  assert (Hrq' : rq = "  Request JSON: " ++ _indent (stringify 0 content) ++ nl)
    by (now injection Hrq).
  subst rq.
  split; [now apply request_label_once|].
  exists (_indent (stringify 0 content)).
  split; [|split; [reflexivity|split;
            [unfold toJSON_model; now rewrite Hser
            |now apply JSON_parse_indented]]].
  unfold request_payload.
  replace (header_line r
             ++ ("  Request JSON: " ++ _indent (stringify 0 content) ++ nl)
             ++ ("  Response headers: " ++ _indent hs ++ nl)
             ++ ("  Response JSON: " ++ _indent cs ++ nl) ++ status_line r)
    with (("Fauna " ++ method r ++ " /" ++ path r ++ _queryString (query r))
            ++ String LF "  Request JSON: "
            ++ (_indent (stringify 0 content)
                  ++ (nl ++ "  Response headers: ")
                  ++ (_indent hs ++ nl ++ ("  Response JSON: " ++ _indent cs ++ nl)
                        ++ status_line r)))
    by (unfold header_line; rewrite !append_assoc; reflexivity).
  change (nl ++ "  Request JSON: ") with (String LF "  Request JSON: ").
  rewrite after_first_newline_free
    by (rewrite !newline_free_app, Hm, Hpath, Hq; reflexivity).
  apply before_first_indented, indented_layout, layout_stringify.
Qed.

Lemma request_json_round_trip_witness :
  count_lines_with "  Request JSON:" scenario_text = 1 /\
  exists payload,
    request_payload scenario_text = Some payload /\
    payload = _indent (stringify 0 (JObj [("data", JObj [("name", JStr "Fido")])])) /\
    toJSON_model (JObj [("data", JObj [("name", JStr "Fido")])]) true
    = Normal (stringify 0 (JObj [("data", JObj [("name", JStr "Fido")])])) /\
    JSON_parse payload = Some (JObj [("data", JObj [("name", JStr "Fido")])]).
Proof.
  apply (request_json_round_trip scenario
           (JObj [("data", JObj [("name", JStr "Fido")])]) scenario_text);
    [reflexivity | discriminate | reflexivity | reflexivity | reflexivity].
Defined.

(** A header with line feeds can carry a request segment of its own, and
    the payload found by the labels is then not the request content: C9
    does not hold for every record. *)
Lemma request_payload_from_header :
  ~ (forall r content text,
        requestContent r = Some content ->
        content <> JNull ->
        serializable content = true ->
        showRequestResult toJSON_model r = Normal text ->
        exists payload,
          request_payload text = Some payload /\
          JSON_parse payload = Some content).
Proof.
  intros H.
  assert (Hn : JObj [("a", JNum 5)] <> JNull) by discriminate.
  destruct (H injected_block (JObj [("a", JNum 5)]) _ eq_refl Hn eq_refl eq_refl)
    as (payload & Hp & Hj).
  vm_compute in Hp. injection Hp as <-.
  vm_compute in Hj. discriminate Hj.
Qed.

(** * Further properties of the code *)

(** ** [_indent] *)

(** X1: [_indent] works character by character, so it distributes over
    every concatenation, not only one at a line feed, and over [join]. *)
Theorem indent_distributes_over_concatenation :
  (forall a b, _indent (a ++ b) = _indent a ++ _indent b) /\
  (forall sep pieces,
      _indent (join sep pieces) = join (_indent sep) (map _indent pieces)) /\
  (forall c s,
      _indent (String c s)
      = if Ascii.eqb c LF then nl ++ "  " ++ _indent s else String c (_indent s)).
Proof.
  split; [exact indent_app|]. split; [exact indent_join | exact indent_cons].
Qed.

Lemma drop_indent_map (pieces : list string) :
  map drop_indent (map (append "  ") pieces) = pieces.
Proof.
  induction pieces as [|x pieces IH]; [reflexivity|].
  cbn [map]. now rewrite IH.
Qed.

(** X2: nothing is lost by [_indent]: dropping the first two characters of
    every line but the first gives the argument back. *)
Theorem unindent_indent (s : string) : unindent (_indent s) = s.
Proof.
  unfold unindent.
  destruct (indent_lines s) as (first & rest & Hs & ->).
  rewrite drop_indent_map. unfold lines in Hs. rewrite <- Hs.
  apply join_split.
Qed.

(** ** [_queryString] *)

(** X3: since nothing is encoded, a value that contains ['&'] and ['=']
    renders like two entries: the mapping cannot be told from the suffix. *)
Theorem queryString_is_ambiguous (k v k' v' : string) :
  String.eqb k k' = false ->
  _queryString (Obj [(k, v ++ "&" ++ k' ++ "=" ++ v')])
  = _queryString (Obj [(k, v); (k', v')]).
Proof.
  intros Hk. unfold _queryString, Object_keys. cbv zeta.
  cbn [map fst List.length Nat.eqb get_property join ToString].
  rewrite !String.eqb_refl, Hk. cbn [ToString].
  now rewrite !append_assoc.
Qed.

Lemma queryString_is_ambiguous_witness :
  _queryString (Obj [("size", "10" ++ "&" ++ "ts" ++ "=" ++ "123")])
  = _queryString (Obj [("size", "10"); ("ts", "123")]).
Proof.
  exact (queryString_is_ambiguous "size" "10" "ts" "123" eq_refl).
Defined.

Lemma split_char_free (sep : ascii) (s : string) :
  char_free sep s = true -> split sep s = [s].
Proof.
  induction s as [|c s IH]; [reflexivity|].
  cbn [char_free split]. intros H. apply andb_true_iff in H. destruct H as [Hc Hs].
  apply negb_true_iff in Hc. now rewrite Hc, (IH Hs).
Qed.

Lemma char_free_app (c : ascii) (a b : string) :
  char_free c (a ++ b) = char_free c a && char_free c b.
Proof.
  induction a as [|x a IH]; [reflexivity|].
  cbn [append char_free]. now rewrite IH, andb_assoc.
Qed.

Lemma split_join_char_free (sep : ascii) (pieces : list string) :
  pieces <> [] ->
  Forall (fun x => char_free sep x = true) pieces ->
  split sep (join (String sep "") pieces) = pieces.
Proof.
  intros Hne Hall. induction Hall as [|x pieces Hx Hall IH]; [congruence|].
  destruct pieces as [|y pieces]; [now apply split_char_free|].
  rewrite join_cons.
  change (String sep "" ++ join (String sep "") (y :: pieces))
    with (String sep (join (String sep "") (y :: pieces))).
  rewrite split_app, (split_char_free sep x Hx), IH by discriminate.
  reflexivity.
Qed.

(** X4: when no key and no value contains ['&'], the pairs can be read off
    the suffix again: it is ['?'] followed by a text that [split('&')]
    cuts into exactly the [key=value] pairs of the mapping, in order. *)
Theorem queryString_pairs_recoverable (entry : string * string) (entries : dict) :
  distinct (Object_keys (entry :: entries)) = true ->
  forallb (fun kv => char_free "&" (fst kv) && char_free "&" (snd kv))
    (entry :: entries) = true ->
  exists tail,
    _queryString (Obj (entry :: entries)) = String "?" tail /\
    split "&" tail = map (fun kv => fst kv ++ "=" ++ snd kv) (entry :: entries).
Proof.
  intros Hd Hfree.
  exists (join "&" (map (fun kv => fst kv ++ "=" ++ snd kv) (entry :: entries))).
  split.
  - unfold _queryString. cbv zeta. now rewrite (pairs_of_distinct_keys _ Hd).
  - apply split_join_char_free; [discriminate|].
    apply Forall_map, Forall_forall. intros kv Hkv.
    rewrite forallb_forall in Hfree. specialize (Hfree kv Hkv).
    apply andb_true_iff in Hfree. destruct Hfree as [Hk Hv].
    now rewrite !char_free_app, Hk, Hv.
Qed.

Lemma queryString_pairs_recoverable_witness :
  exists tail,
    _queryString (Obj [("size", "10"); ("ts", "123")]) = String "?" tail /\
    split "&" tail
    = map (fun kv => fst kv ++ "=" ++ snd kv) [("size", "10"); ("ts", "123")].
Proof.
  exact (queryString_pairs_recoverable ("size", "10") [("ts", "123")]
           eq_refl eq_refl).
Defined.

(** ** [showRequestResult] *)

Section RenderProperties.

Variable toJSON : value -> bool -> completion string.

Local Abbreviation render := (showRequestResult toJSON).

(** X5: rendering throws what the serializer throws, the first failure in
    the order request content, response headers, response content: a
    throw on a request content that is neither [null] nor [undefined] is
    thrown whatever the later serializations would do, a throw on the
    response headers is thrown when the request segment was built, and a
    throw on the response content when both before it succeeded. *)
Theorem render_throws_first_serialization_failure (r : RequestResult) (e : exn) :
  (forall content,
      requestContent r = Some content -> content <> JNull ->
      toJSON content true = Throw e -> render r = Throw e) /\
  (forall rq,
      request_segment toJSON r = Normal rq ->
      toJSON (responseHeaders r) true = Throw e -> render r = Throw e) /\
  (forall rq hs,
      request_segment toJSON r = Normal rq ->
      toJSON (responseHeaders r) true = Normal hs ->
      toJSON (responseContent r) true = Throw e -> render r = Throw e).
Proof.
  repeat split.
  - intros content Hc Hn Ht.
    rewrite render_outcome, body_outcome. cbv zeta. cbn [requestResult].
    unfold request_segment, _showJSON. rewrite Hc.
    destruct content; try congruence; cbn [not_nullish]; now rewrite Ht.
  - intros rq Hrq Hhs.
    rewrite render_outcome, body_outcome. cbv zeta. cbn [requestResult].
    rewrite Hrq. unfold _showJSON. now rewrite Hhs.
  - intros rq hs Hrq Hhs Hcs.
    rewrite render_outcome, body_outcome. cbv zeta. cbn [requestResult].
    rewrite Hrq. unfold _showJSON. now rewrite Hhs, Hcs.
Qed.

Lemma Forall_app_intro {A} (P : A -> Prop) (l1 l2 : list A) :
  Forall P l1 -> Forall P l2 -> Forall P (l1 ++ l2).
Proof. intros H1 H2. apply Forall_app. now split. Qed.

(** The lines of a labelled segment all begin with two spaces when the
    label does. *)
Lemma segment_lines_indented (label js : string) :
  newline_free ("  " ++ label) = true ->
  Forall (fun l => prefix "  " l = true) (lines (("  " ++ label) ++ _indent js)).
Proof.
  intros Hl. rewrite (lines_labelled_indent _ js Hl).
  constructor.
  - cbn [append prefix].
    destruct (ascii_dec " " " ") as [_|n]; [|now destruct n].
    now destruct (label ++ hd "" (lines js)).
  - apply Forall_map, Forall_forall. intros l _. cbn [append prefix].
    destruct (ascii_dec " " " ") as [_|n]; [|now destruct n]. now destruct l.
Qed.

(** X8: when the header has no line feed, the first line of a rendered
    block is the header, the last line is empty (the block ends with a
    line feed), and every line in between begins with two spaces, whatever
    the serializer returns. *)
Theorem block_lines_are_indented (r : RequestResult) (text : string) :
  render r = Normal text ->
  newline_free (method r) && newline_free (path r)
    && newline_free (_queryString (query r)) = true ->
  exists body,
    lines text
    = ("Fauna " ++ method r ++ " /" ++ path r ++ _queryString (query r))
        :: (body ++ [""])%list /\
    body <> [] /\
    Forall (fun l => prefix "  " l = true) body.
Proof.
  intros Hr Hh.
  apply andb_true_iff in Hh. destruct Hh as [Hh Hq].
  apply andb_true_iff in Hh. destruct Hh as [Hm Hp].
  destruct (render_segments toJSON r text Hr) as (rq & hs & cs & Hrq & _ & _ & ->).
  assert (Hseg : forall label js rest body,
             lines rest = (body ++ [""])%list ->
             lines ((label ++ _indent js ++ nl) ++ rest)
             = ((lines (label ++ _indent js) ++ body) ++ [""])%list).
  { intros label js rest body Hrest.
    replace ((label ++ _indent js ++ nl) ++ rest)
      with ((label ++ _indent js) ++ String LF rest)
      by (now rewrite !append_assoc).
    unfold lines in *. now rewrite split_app, Hrest, app_assoc. }
  assert (Hstatus : lines (status_line r)
                    = ([("  " ++ "Response (" ++ Number_toString (statusCode r)
                           ++ "): Network latency "
                           ++ Number_toString (timeTaken r) ++ "ms")%string]
                         ++ [""])%list).
  { unfold status_line, lines.
    replace ("  Response (" ++ Number_toString (statusCode r)
               ++ "): Network latency " ++ Number_toString (timeTaken r) ++ "ms" ++ nl)
      with (("  " ++ "Response (" ++ Number_toString (statusCode r)
               ++ "): Network latency " ++ Number_toString (timeTaken r) ++ "ms")
              ++ String LF "")
      by (now rewrite !append_assoc).
    rewrite split_app, split_newline_free
      by (rewrite !newline_free_app, !newline_free_number; reflexivity).
    reflexivity. }
  pose proof (Hseg "  Response JSON: " cs _ _ Hstatus) as Hcs.
  pose proof (Hseg "  Response headers: " hs _ _ Hcs) as Hhs.
  assert (Hhead : forall rest,
             lines (header_line r ++ rest)
             = ("Fauna " ++ method r ++ " /" ++ path r ++ _queryString (query r))
                 :: lines rest).
  { intros rest. unfold header_line, lines.
    replace (("Fauna " ++ method r ++ " /" ++ path r ++ _queryString (query r) ++ nl)
               ++ rest)
      with (("Fauna " ++ method r ++ " /" ++ path r ++ _queryString (query r))
              ++ String LF rest)
      by (now rewrite !append_assoc).
    rewrite split_app, split_newline_free
      by (rewrite !newline_free_app, Hm, Hp, Hq; reflexivity).
    reflexivity. }
  assert (Hstatus_ok :
            Forall (fun l => prefix "  " l = true)
              [("  " ++ "Response (" ++ Number_toString (statusCode r)
                  ++ "): Network latency " ++ Number_toString (timeTaken r) ++ "ms")]).
  { constructor; [|constructor]. cbn [append prefix].
    destruct (ascii_dec " " " ") as [_|n]; [reflexivity | now destruct n]. }
  unfold request_segment in Hrq.
  destruct (not_nullish (requestContent r));
    [destruct (requestContent r) as [content|]|].
  - unfold _showJSON in Hrq.
    destruct (toJSON content true) as [js|e]; [|discriminate].
    assert (Hrq' : rq = "  Request JSON: " ++ _indent js ++ nl)
      by (now injection Hrq).
    subst rq. rewrite Hhead.
    rewrite (Hseg "  Request JSON: " js _ _ Hhs).
    eexists. split; [reflexivity|]. split.
    + intros H. apply (f_equal (@List.length string)) in H.
      rewrite !length_app in H. cbn [List.length] in H. lia.
    + repeat apply Forall_app_intro;
        try exact (segment_lines_indented "Request JSON: " _ eq_refl);
        try exact (segment_lines_indented "Response headers: " _ eq_refl);
        try exact (segment_lines_indented "Response JSON: " _ eq_refl);
        exact Hstatus_ok.
  - injection Hrq as <-. rewrite Hhead.
    match goal with |- context [lines ("" ++ ?t)] => change ("" ++ t) with t end.
    rewrite Hhs.
    eexists. split; [reflexivity|]. split.
    + intros H. apply (f_equal (@List.length string)) in H.
      rewrite !length_app in H. cbn [List.length] in H. lia.
    + repeat apply Forall_app_intro;
        try exact (segment_lines_indented "Request JSON: " _ eq_refl);
        try exact (segment_lines_indented "Response headers: " _ eq_refl);
        try exact (segment_lines_indented "Response JSON: " _ eq_refl);
        exact Hstatus_ok.
  - injection Hrq as <-. rewrite Hhead.
    match goal with |- context [lines ("" ++ ?t)] => change ("" ++ t) with t end.
    rewrite Hhs.
    eexists. split; [reflexivity|]. split.
    + intros H. apply (f_equal (@List.length string)) in H.
      rewrite !length_app in H. cbn [List.length] in H. lia.
    + repeat apply Forall_app_intro;
        try exact (segment_lines_indented "Request JSON: " _ eq_refl);
        try exact (segment_lines_indented "Response headers: " _ eq_refl);
        try exact (segment_lines_indented "Response JSON: " _ eq_refl);
        exact Hstatus_ok.
Qed.

(** X7: the request segment is all that a request content adds to a block:
    taking it out of the block of a record gives the block of the same
    record with an [undefined] request content, which is also the block of
    the record with a [null] request content. *)
Theorem request_segment_is_all_content_adds (r : RequestResult) (text : string) :
  render r = Normal text ->
  exists rq tail,
    request_segment toJSON r = Normal rq /\
    text = header_line r ++ rq ++ tail /\
    render (with_requestContent r None) = Normal (header_line r ++ tail) /\
    render (with_requestContent r (Some JNull)) = Normal (header_line r ++ tail).
Proof.
  intros Hr.
  destruct (render_segments toJSON r text Hr) as (rq & hs & cs & Hrq & Hhs & Hcs & ->).
  exists rq. eexists. split; [exact Hrq|]. split; [reflexivity|].
  split; rewrite render_outcome, body_outcome; cbv zeta;
    cbn [requestResult with_requestContent request_segment not_nullish
           requestContent responseHeaders responseContent];
    unfold _showJSON; rewrite Hhs, Hcs; reflexivity.
Qed.

End RenderProperties.

(** X6: the formatter asks the serializer for the pretty form of the two
    response payloads and of a request content that is neither [null] nor
    [undefined], and for nothing else: two serializers that agree there
    give the same outcome, whatever they do in compact form or on a
    [null] request content. *)
Theorem render_consults_serializer_on_present_payloads_only
    (toJSON1 toJSON2 : value -> bool -> completion string) (r : RequestResult) :
  (forall content,
      requestContent r = Some content -> content <> JNull ->
      toJSON1 content true = toJSON2 content true) ->
  toJSON1 (responseHeaders r) true = toJSON2 (responseHeaders r) true ->
  toJSON1 (responseContent r) true = toJSON2 (responseContent r) true ->
  showRequestResult toJSON1 r = showRequestResult toJSON2 r.
Proof.
  intros Hrq Hhs Hcs.
  rewrite !render_outcome, !body_outcome. cbv zeta. cbn [requestResult].
  assert (E : request_segment toJSON1 r = request_segment toJSON2 r).
  { unfold request_segment, _showJSON.
    destruct (requestContent r) as [content|]; [|reflexivity].
    destruct content; try reflexivity;
      (rewrite (Hrq _ eq_refl) by discriminate; reflexivity). }
  unfold _showJSON. now rewrite E, Hhs, Hcs.
Qed.

(** ** Concrete records for the properties above *)

Lemma render_throws_first_serialization_failure_witness :
  showRequestResult toJSON_model cyclic_response = Throw SerializationError.
Proof.
  apply (proj2 (proj2 (render_throws_first_serialization_failure toJSON_model
                         cyclic_response SerializationError))
           ("  Request JSON: " ++ _indent (stringify 0 (JObj [("name", JStr "Fido")]))
              ++ nl)
           (stringify 0 (JObj [])));
    reflexivity.
Defined.

Lemma render_consults_serializer_on_present_payloads_only_witness :
  showRequestResult toJSON_model ping = showRequestResult toJSON_pretty_only ping.
Proof.
  apply (render_consults_serializer_on_present_payloads_only
           toJSON_model toJSON_pretty_only ping);
    [intros content [= <-] H; now destruct H | reflexivity | reflexivity].
Defined.

Lemma request_segment_is_all_content_adds_witness :
  exists rq tail,
    request_segment toJSON_model scenario = Normal rq /\
    scenario_text = header_line scenario ++ rq ++ tail /\
    showRequestResult toJSON_model (with_requestContent scenario None)
    = Normal (header_line scenario ++ tail) /\
    showRequestResult toJSON_model (with_requestContent scenario (Some JNull))
    = Normal (header_line scenario ++ tail).
Proof.
  exact (request_segment_is_all_content_adds toJSON_model scenario scenario_text
           eq_refl).
Defined.

Lemma block_lines_are_indented_witness :
  exists body,
    lines scenario_text
    = ("Fauna " ++ method scenario ++ " /" ++ path scenario
         ++ _queryString (query scenario))
        :: (body ++ [""])%list /\
    body <> [] /\
    Forall (fun l => prefix "  " l = true) body.
Proof.
  exact (block_lines_are_indented toJSON_model scenario scenario_text
           eq_refl eq_refl).
Defined.
